(** * ResourceCacheDevice: the fetch-on-demand file device of
    citizen-resources-client

    A shallow embedding of
    [code/components/citizen-resources-client/src/ResourceCacheDevice.cpp].

    The device object, its fixed handle table, the global set of downloaded
    hashes and the caller-owned out-parameters form the state [World].  Every
    call into a collaborator (manifest, cache, parent device, HTTP client,
    game-init store, log) is recorded as an [Event]; what the collaborator
    answers is given by an environment [Env] of oracles that see the history
    of events so far.  C++ faults that end the call abnormally
    ([std::out_of_range], a null dereference, an index outside the handle
    array, [FatalError]) are explicit outcomes. *)

From Stdlib Require Import ZArith String Ascii List Lia Bool.
From stdpp Require Import base decidable option list gmap strings.

Local Open Scope Z_scope.
Local Open Scope string_scope.

(* ------------------------------------------------------------------------- *)
(** ** Machine integers *)

Module Word.

(** [size_t], [uintptr_t] and [uint64_t] are 64 bits wide on the x64 target
    of this component. *)
Definition modulus : Z := 2 ^ 64.

Definition wrap64 (z : Z) : Z := z mod modulus.

Definition wrap32 (z : Z) : Z := z mod 2 ^ 32.

(** Conversion to [int]: two's complement on 32 bits. *)
Definition to_int (z : Z) : Z := (z + 2 ^ 31) mod 2 ^ 32 - 2 ^ 31.

(** [(size_t)-1], also [std::string::npos] and [vfs::Device::InvalidHandle]. *)
Definition minus_one : Z := modulus - 1.

End Word.

Definition npos : Z := Word.minus_one.

(** [vfs::Device::InvalidHandle] is declared in the VFS headers as
    [(THandle)-1]. *)
Definition InvalidHandle : Z := Word.minus_one.

(* ------------------------------------------------------------------------- *)
(** ** The [std::string] operations the device uses *)

Module Str.

(** [s.find_first_of(c)]: index of the first [c], [None] for [npos]. *)
Fixpoint find_first_of (c : ascii) (s : string) : option nat :=
  match s with
  | EmptyString => None
  | String a s' =>
      if Ascii.eqb a c then Some O
      else match find_first_of c s' with
           | Some p => Some (S p)
           | None => None
           end
  end.

(** [s.find_last_of(c)]: index of the last [c], [None] for [npos]. *)
Fixpoint find_last_of (c : ascii) (s : string) : option nat :=
  match s with
  | EmptyString => None
  | String a s' =>
      match find_last_of c s' with
      | Some p => Some (S p)
      | None => if Ascii.eqb a c then Some O else None
      end
  end.

(** The [size_t] a search returns. *)
Definition pos_of (r : option nat) : Z :=
  match r with
  | Some p => Z.of_nat p
  | None => npos
  end.

(** [s.find(pat) != npos]. *)
Definition contains (pat s : string) : bool :=
  match String.index 0 pat s with
  | Some _ => true
  | None => false
  end.

Definition size (s : string) : Z := Z.of_nat (String.length s).

(** [s.substr(pos, count)] with [size_t] arguments; [None] stands for the
    [std::out_of_range] thrown when [pos > s.size()]. *)
Definition substr (s : string) (pos count : Z) : option string :=
  if (size s <? pos)%Z then None
  else
    let n := Z.min count (size s - pos) in
    Some (String.substring (Z.to_nat pos) (Z.to_nat n) s).

Definition is_space (a : ascii) : bool :=
  let n := nat_of_ascii a in
  (Nat.eqb n 32 || (Nat.leb 9 n && Nat.leb n 13))%bool.

Definition digit_of (a : ascii) : option Z :=
  let n := nat_of_ascii a in
  if (Nat.leb 48 n && Nat.leb n 57)%bool then Some (Z.of_nat n - 48) else None.

Fixpoint skip_space (s : string) : string :=
  match s with
  | String a s' => if is_space a then skip_space s' else s
  | EmptyString => s
  end.

(** The value of the longest prefix of decimal digits, continuing [acc];
    the result is not bounded. *)
Fixpoint digits (acc : Z) (s : string) : Z :=
  match s with
  | String a s' =>
      match digit_of a with
      | Some d => digits (acc * 10 + d) s'
      | None => acc
      end
  | EmptyString => acc
  end.

(** Optional white space, an optional sign, then decimal digits. *)
Definition signed_digits (s : string) : bool * Z :=
  match skip_space s with
  | String "-" s' => (true, digits 0 s')
  | String "+" s' => (false, digits 0 s')
  | s' => (false, digits 0 s')
  end.

(** [atoi] of the C runtime: the parsed value as an [int]; out of range the
    Microsoft runtime returns [INT_MAX] or [INT_MIN]. *)
Definition atoi (s : string) : Z :=
  let '(neg, v) := signed_digits s in
  let r := if neg then - v else v in
  Z.max (- 2 ^ 31) (Z.min (2 ^ 31 - 1) r).

(** [strtoul(s, nullptr, 10)] of the C runtime where [unsigned long] has
    32 bits: [ULONG_MAX] when the digits overflow, else the value, negated
    in unsigned arithmetic after a minus sign. *)
Definition strtoul (s : string) : Z :=
  let '(neg, v) := signed_digits s in
  if (2 ^ 32 - 1 <? v)%Z then 2 ^ 32 - 1
  else if neg then Word.wrap32 (- v) else v.

End Str.

(* ------------------------------------------------------------------------- *)
(** ** Data model *)

(** [ResourceCacheEntryList::Entry]. *)
Record Entry := mkEntry {
  basename : string;
  resourceName : string;
  referenceHash : string;
  remoteUrl : string;
  size : Z;
  extData : gmap string string
}.

(** What [ResourceCache::GetEntryFor] yields on a hit. *)
Record CacheEntry := mkCacheEntry {
  GetLocalPath : string;
  GetMetaData : gmap string string
}.

(** [HandleData::Status]. *)
Inductive Status :=
| StatusEmpty
| StatusNotFetched
| StatusFetching
| StatusFetched
| StatusError.

#[global] Instance Status_eq_dec : EqDecision Status.
Proof. solve_decision. Defined.

(** A mounted [vfs::Device], by name. *)
Definition DeviceId := nat.

(** A transport request handle, by serial number. *)
Definition RequestId := nat.

(** [ResourceCacheDevice::HandleData]; the mutex and the condition variable
    carry no data. *)
Record HandleData := mkHandleData {
  status : Status;
  entry : Entry;
  bulkHandle : bool;
  parentDevice : option DeviceId;
  parentHandle : Z;
  bulkPtr : Z;
  downloadProgress : Z;
  downloadSize : Z;
  getRequest : option RequestId;
  metaData : gmap string string
}.

Definition set_status (s : Status) (h : HandleData) : HandleData :=
  mkHandleData s (entry h) (bulkHandle h) (parentDevice h) (parentHandle h)
    (bulkPtr h) (downloadProgress h) (downloadSize h) (getRequest h) (metaData h).

Definition set_entry (e : Entry) (h : HandleData) : HandleData :=
  mkHandleData (status h) e (bulkHandle h) (parentDevice h) (parentHandle h)
    (bulkPtr h) (downloadProgress h) (downloadSize h) (getRequest h) (metaData h).

Definition set_bulkHandle (b : bool) (h : HandleData) : HandleData :=
  mkHandleData (status h) (entry h) b (parentDevice h) (parentHandle h)
    (bulkPtr h) (downloadProgress h) (downloadSize h) (getRequest h) (metaData h).

Definition set_parentDevice (d : option DeviceId) (h : HandleData) : HandleData :=
  mkHandleData (status h) (entry h) (bulkHandle h) d (parentHandle h)
    (bulkPtr h) (downloadProgress h) (downloadSize h) (getRequest h) (metaData h).

Definition set_parentHandle (p : Z) (h : HandleData) : HandleData :=
  mkHandleData (status h) (entry h) (bulkHandle h) (parentDevice h) p
    (bulkPtr h) (downloadProgress h) (downloadSize h) (getRequest h) (metaData h).

Definition set_bulkPtr (p : Z) (h : HandleData) : HandleData :=
  mkHandleData (status h) (entry h) (bulkHandle h) (parentDevice h) (parentHandle h)
    p (downloadProgress h) (downloadSize h) (getRequest h) (metaData h).

Definition set_download (now total : Z) (h : HandleData) : HandleData :=
  mkHandleData (status h) (entry h) (bulkHandle h) (parentDevice h) (parentHandle h)
    (bulkPtr h) now total (getRequest h) (metaData h).

Definition set_getRequest (r : option RequestId) (h : HandleData) : HandleData :=
  mkHandleData (status h) (entry h) (bulkHandle h) (parentDevice h) (parentHandle h)
    (bulkPtr h) (downloadProgress h) (downloadSize h) r (metaData h).

Definition set_metaData (m : gmap string string) (h : HandleData) : HandleData :=
  mkHandleData (status h) (entry h) (bulkHandle h) (parentDevice h) (parentHandle h)
    (bulkPtr h) (downloadProgress h) (downloadSize h) (getRequest h) m.

(** [ProgressInfo] of the HTTP client. *)
Record ProgressInfo := mkProgressInfo {
  downloadNow : Z;
  downloadTotal : Z
}.

(** What the transport hands to the completion callback, with the progress
    reports that precede it. *)
Record Completion := mkCompletion {
  cp_progress : list ProgressInfo;
  cp_result : bool;
  cp_errorData : string;
  cp_outSize : Z
}.

(** The variables the completion lambda of [EnsureFetched] captures by value. *)
Record Closure := mkClosure {
  cl_request : RequestId;
  cl_slot : nat;
  cl_outFileName : string
}.

(** The [trace] lines of the file. *)
Inductive TraceLine :=
| TraceNotInCache (name : string)
| TraceDownloading (name hash url : string)
| TraceFailure (errorData : string) (caller : option string) (empty : bool)
| TraceDownloaded (name : string) (outSize : Z)
| TraceTwice (name : string).

(** Calls that leave the device, most recent first in the history. *)
Inductive Event :=
| EvOpen (d : DeviceId) (path : string) (readOnly : bool)
| EvOpenBulk (d : DeviceId) (path : string)
| EvRead (d : DeviceId) (h size : Z)
| EvReadBulk (d : DeviceId) (h ptr size : Z)
| EvSeek (d : DeviceId) (h offset seekType : Z)
| EvClose (d : DeviceId) (h : Z)
| EvCloseBulk (d : DeviceId) (h : Z)
| EvGetLength (d : DeviceId) (h : Z)
| EvGetLengthPath (d : DeviceId) (path : string)
| EvAddEntry (path : string) (meta : gmap string string)
| EvFileGetRequest (url : string) (dest : option DeviceId) (outFileName : string)
    (headers : gmap string string) (weight : Z)
| EvSetRequestWeight (r : RequestId) (weight : Z)
| EvCacheDownloadStatus (path : string) (now total : Z)
| EvSetData (key errorData : string) (caller : option string) (empty : bool)
| EvNotifyAll (slot : nat)
| EvTrace (line : TraceLine).

Definition History := list Event.

(** The collaborators of the device.  None of them is defined in this file of
    the repository; each is taken as given.  The manifest is the resource
    manager's table of resources, each with the entries of its
    [ResourceCacheEntryList] by item name. *)
Record Env := mkEnv {
  resources : gmap string (gmap string Entry);
  cache_GetEntryFor : History -> string -> option CacheEntry;
  vfs_GetDevice : string -> option DeviceId;
  dev_Open : History -> DeviceId -> string -> bool -> Z;
  dev_OpenBulk : History -> DeviceId -> string -> Z * Z;
  dev_Read : History -> DeviceId -> Z -> Z -> Z * list Byte.byte;
  dev_ReadBulk : History -> DeviceId -> Z -> Z -> Z -> Z * list Byte.byte;
  dev_Seek : History -> DeviceId -> Z -> Z -> Z -> Z;
  dev_Close : History -> DeviceId -> Z -> bool;
  dev_CloseBulk : History -> DeviceId -> Z -> bool;
  dev_GetLength : History -> DeviceId -> Z -> Z;
  dev_GetLengthPath : History -> DeviceId -> string -> Z;
  core_GetData : History -> string -> option string;
  http_outcome : History -> Closure -> Completion
}.

(** The device object ([m_handles], [m_blocking], [m_cachePath],
    [m_pathPrefix]), the file-level [g_downloadedSet], the requests the
    transport still has to complete, the caller's [uint64_t] cells that
    [OpenBulk] writes through, and the history. *)
Record World := mkWorld {
  m_handles : list HandleData;
  m_blocking : bool;
  m_cachePath : string;
  m_pathPrefix : string;
  g_downloadedSet : gset string;
  inflight : list Closure;
  cells : gmap nat Z;
  history : History
}.

Definition set_handles (hs : list HandleData) (w : World) : World :=
  mkWorld hs (m_blocking w) (m_cachePath w) (m_pathPrefix w) (g_downloadedSet w)
    (inflight w) (cells w) (history w).

Definition set_pathPrefix (p : string) (w : World) : World :=
  mkWorld (m_handles w) (m_blocking w) (m_cachePath w) p (g_downloadedSet w)
    (inflight w) (cells w) (history w).

Definition set_downloadedSet (s : gset string) (w : World) : World :=
  mkWorld (m_handles w) (m_blocking w) (m_cachePath w) (m_pathPrefix w) s
    (inflight w) (cells w) (history w).

Definition set_inflight (l : list Closure) (w : World) : World :=
  mkWorld (m_handles w) (m_blocking w) (m_cachePath w) (m_pathPrefix w)
    (g_downloadedSet w) l (cells w) (history w).

Definition set_cells (c : gmap nat Z) (w : World) : World :=
  mkWorld (m_handles w) (m_blocking w) (m_cachePath w) (m_pathPrefix w)
    (g_downloadedSet w) (inflight w) c (history w).

Definition set_history (h : History) (w : World) : World :=
  mkWorld (m_handles w) (m_blocking w) (m_cachePath w) (m_pathPrefix w)
    (g_downloadedSet w) (inflight w) (cells w) h.

(* ------------------------------------------------------------------------- *)
(** ** State and faults *)

Inductive Fault :=
| OutOfRange      (* std::out_of_range from substr *)
| NullDeref       (* call through a null device reference or pointer *)
| BadIndex        (* m_handles[handle] outside the array *)
| Fatal           (* FatalError: no free handle *)
| WaitsForever.   (* wait on lockVar with no request left to signal it *)

Inductive Outcome (A : Type) :=
| Ok (a : A) (w : World)
| Fail (f : Fault) (w : World).

Arguments Ok {A} a w.
Arguments Fail {A} f w.

Definition M (A : Type) : Type := World -> Outcome A.

Definition ret {A} (a : A) : M A := fun w => Ok a w.

Definition bind {A B} (m : M A) (k : A -> M B) : M B :=
  fun w => match m w with
           | Ok a w' => k a w'
           | Fail f w' => Fail f w'
           end.

Definition fail {A} (f : Fault) : M A := fun w => Fail f w.

Declare Scope dev_scope.
Delimit Scope dev_scope with dev.

Notation "x <- m ;; k" := (bind m (fun x => k))
  (at level 100, m at next level, right associativity) : dev_scope.
Notation "m ;; k" := (bind m (fun _ => k))
  (at level 100, right associativity) : dev_scope.

Local Open Scope dev_scope.

Definition get : M World := fun w => Ok w w.

Definition modify (f : World -> World) : M unit := fun w => Ok tt (f w).

(** Record a call; the oracle that answers it has seen the history before. *)
Definition emit (e : Event) : M unit :=
  modify (fun w => set_history (e :: history w) w).

(** An oracle's answer at the current history. *)
Definition ask {A} (q : History -> A) : M A := fun w => Ok (q (history w)) w.

(** [m_handles[i]] for reading. *)
Definition slot (i : nat) : M HandleData :=
  fun w => match m_handles w !! i with
           | Some hd => Ok hd w
           | None => Fail BadIndex w
           end.

(** An assignment to a field of [m_handles[i]]. *)
Definition update (i : nat) (f : HandleData -> HandleData) : M unit :=
  fun w => match m_handles w !! i with
           | Some hd => Ok tt (set_handles (<[i := f hd]> (m_handles w)) w)
           | None => Fail BadIndex w
           end.

(** [&m_handles[handle]] for a [THandle] passed in by the caller. *)
Definition index_of (handle : Z) : M nat :=
  fun w => if decide (0 <= handle < Z.of_nat (length (m_handles w)))
           then Ok (Z.to_nat handle) w
           else Fail BadIndex w.

Definition when (b : bool) (m : M unit) : M unit :=
  if b then m else ret tt.

Fixpoint for_each {A} (l : list A) (body : A -> M unit) : M unit :=
  match l with
  | [] => ret tt
  | x :: l' => body x ;; for_each l' body
  end.

(* ------------------------------------------------------------------------- *)
(** ** The device *)

(** [VFS_GET_RAGE_PAGE_FLAGS]. *)
Definition VFS_GET_RAGE_PAGE_FLAGS : Z := 0x20001.

Record ResourceFlags := mkResourceFlags {
  flag1 : Z;
  flag2 : Z
}.

Record GetRagePageFlagsExtension := mkGetRagePageFlagsExtension {
  fileName : string;
  version : Z;
  flags : ResourceFlags
}.

(** [GetWeightForFileName]; [None] is the [std::out_of_range] of
    [substr(npos)] for a name without a dot. *)
Definition GetWeightForFileName (fileName : string) : option Z :=
  match Str.substr fileName (Str.pos_of (Str.find_last_of "." fileName)) npos with
  | None => None
  | Some ext =>
      if (String.eqb ext ".ybn" || String.eqb ext ".ymap" || String.eqb ext ".ytyp")%bool
      then Some 255
      else if (String.eqb ext ".ydd" || String.eqb ext ".ydr")%bool
      then Some 128
      else if (String.eqb ext ".ytd" || String.eqb ext ".rpf" || String.eqb ext ".gfx")%bool
      then Some 64
      else if (Str.contains "+hi" fileName || Str.contains "_hi" fileName)%bool
      then Some 16
      else Some 32
  end.

(** The first slot of the array whose status is [StatusEmpty], scanning from
    index [i]. *)
Fixpoint first_empty (i : nat) (hs : list HandleData) : option nat :=
  match hs with
  | [] => None
  | hd :: hs' =>
      if bool_decide (status hd = StatusEmpty) then Some i
      else first_empty (S i) hs'
  end.

(** The first request in flight whose callback captured slot [i], and the
    others. *)
Fixpoint take_closure (i : nat) (l : list Closure) : option (Closure * list Closure) :=
  match l with
  | [] => None
  | cl :: l' =>
      if Nat.eqb (cl_slot cl) i then Some (cl, l')
      else match take_closure i l' with
           | Some (c, rest) => Some (c, cl :: rest)
           | None => None
           end
  end.

(** The request with serial number [r], and the others. *)
Fixpoint take_request (r : RequestId) (l : list Closure) : option (Closure * list Closure) :=
  match l with
  | [] => None
  | cl :: l' =>
      if Nat.eqb (cl_request cl) r then Some (cl, l')
      else match take_request r l' with
           | Some (c, rest) => Some (c, cl :: rest)
           | None => None
           end
  end.

Definition throwing {A} (o : option A) : M A :=
  match o with
  | Some a => ret a
  | None => fail OutOfRange
  end.

Section Device.

Variable env : Env.

(** *** Calls on a parent device *)

Definition parent_Open (d : DeviceId) (path : string) (readOnly : bool) : M Z :=
  r <- ask (fun h => dev_Open env h d path readOnly) ;;
  emit (EvOpen d path readOnly) ;;
  ret r.

(** [parentDevice->OpenBulk(path, &handleData->bulkPtr)] for slot [i]. *)
Definition parent_OpenBulk (d : DeviceId) (path : string) (i : nat) : M Z :=
  r <- ask (fun h => dev_OpenBulk env h d path) ;;
  emit (EvOpenBulk d path) ;;
  update i (set_bulkPtr (snd r)) ;;
  ret (fst r).

Definition parent_Read (d : DeviceId) (h size : Z) : M (Z * list Byte.byte) :=
  r <- ask (fun hist => dev_Read env hist d h size) ;;
  emit (EvRead d h size) ;;
  ret r.

Definition parent_ReadBulk (d : DeviceId) (h ptr size : Z) : M (Z * list Byte.byte) :=
  r <- ask (fun hist => dev_ReadBulk env hist d h ptr size) ;;
  emit (EvReadBulk d h ptr size) ;;
  ret r.

Definition parent_Seek (d : DeviceId) (h offset seekType : Z) : M Z :=
  r <- ask (fun hist => dev_Seek env hist d h offset seekType) ;;
  emit (EvSeek d h offset seekType) ;;
  ret r.

Definition parent_Close (d : DeviceId) (h : Z) : M bool :=
  r <- ask (fun hist => dev_Close env hist d h) ;;
  emit (EvClose d h) ;;
  ret r.

Definition parent_CloseBulk (d : DeviceId) (h : Z) : M bool :=
  r <- ask (fun hist => dev_CloseBulk env hist d h) ;;
  emit (EvCloseBulk d h) ;;
  ret r.

Definition parent_GetLength (d : DeviceId) (h : Z) : M Z :=
  r <- ask (fun hist => dev_GetLength env hist d h) ;;
  emit (EvGetLength d h) ;;
  ret r.

Definition parent_GetLengthPath (d : DeviceId) (path : string) : M Z :=
  r <- ask (fun hist => dev_GetLengthPath env hist d path) ;;
  emit (EvGetLengthPath d path) ;;
  ret r.

(** *** Resolution *)

Definition GetEntryForFileName (fileName : string) : M (option Entry) :=
  w <- get ;;
  relativeName <- throwing (Str.substr fileName (Str.size (m_pathPrefix w)) npos) ;;
  let slashOffset := Word.to_int (Str.pos_of (Str.find_first_of "/" relativeName)) in
  resourceName <- throwing (Str.substr relativeName 0 (Word.wrap64 slashOffset)) ;;
  itemName <- throwing (Str.substr relativeName (Word.wrap64 (slashOffset + 1)) npos) ;;
  match resources env !! resourceName with
  | None => ret None
  | Some entryList => ret (entryList !! itemName)
  end.

(** *** The handle table *)

Definition AllocateHandle : M nat :=
  w <- get ;;
  match first_empty 0 (m_handles w) with
  | Some i => update i (set_status StatusError) ;; ret i
  | None => fail Fatal
  end.

Definition MarkFetched (i : nat) : M unit := ret tt.

Definition AddEntryToCache (outFileName : string) (metaData : gmap string string)
    (i : nat) : M unit :=
  emit (EvAddEntry outFileName metaData).

(** *** Open *)

Definition OpenInternal (fileName : string) (bulkPtr : option nat) : M Z :=
  found <- GetEntryForFileName fileName ;;
  match found with
  | None => ret InvalidHandle
  | Some e =>
      handle <- AllocateHandle ;;
      update handle (set_bulkHandle (bool_decide (bulkPtr <> None))) ;;
      update handle (set_entry e) ;;
      update handle (set_status StatusNotFetched) ;;
      cacheEntry <- ask (fun h => cache_GetEntryFor env h (referenceHash e)) ;;
      match cacheEntry with
      | Some cacheEntry =>
          let localPath := GetLocalPath cacheEntry in
          update handle (set_parentDevice (vfs_GetDevice env localPath)) ;;
          hd <- slot handle ;;
          match parentDevice hd with
          | Some d =>
              ph <- (if bool_decide (bulkPtr <> None)
                     then parent_OpenBulk d localPath handle
                     else parent_Open d localPath true) ;;
              update handle (set_parentHandle ph) ;;
              hd <- slot handle ;;
              when (bool_decide (parentHandle hd <> InvalidHandle))
                (update handle (set_status StatusFetched) ;;
                 update handle (set_metaData (GetMetaData cacheEntry)) ;;
                 MarkFetched handle)
          | None => ret tt
          end
      | None => ret tt
      end ;;
      hd <- slot handle ;;
      when (bool_decide (status hd <> StatusFetched))
        (w <- get ;;
         when (bool_decide (referenceHash (entry hd) ∈ g_downloadedSet w))
           (emit (EvTrace (TraceNotInCache (basename (entry hd)))))) ;;
      ret (Z.of_nat handle)
  end.

Definition Open (fileName : string) (readOnly : bool) : M Z :=
  if negb readOnly then ret InvalidHandle
  else OpenInternal fileName None.

(** [ptr] is the address of the caller's cell; [None] is a null pointer. *)
Definition OpenBulk (fileName : string) (ptr : option nat) : M Z :=
  match ptr with
  | None => fail NullDeref
  | Some a =>
      modify (fun w => set_cells (<[a := 0]> (cells w)) w) ;;
      OpenInternal fileName ptr
  end.

(** *** The fetch controller *)

(** [options.progressCallback], for slot [i]. *)
Definition progressCallback (i : nat) (info : ProgressInfo) : M unit :=
  update i (set_download (downloadNow info) (downloadTotal info)) ;;
  when (negb (downloadTotal info =? 0)%Z)
    (w <- get ;;
     hd <- slot i ;;
     emit (EvCacheDownloadStatus
             (m_pathPrefix w +:+ resourceName (entry hd) +:+ "/" +:+ basename (entry hd))
             (downloadNow info) (downloadTotal info))).

(** The completion lambda handed to [DoFileGetRequest], with its captured
    variables [cl] and its arguments. *)
Definition completion (cl : Closure) (result : bool) (errorData : string)
    (outSize : Z) : M unit :=
  let i := cl_slot cl in
  let outFileName := cl_outFileName cl in
  outSize <- (if result
              then match vfs_GetDevice env outFileName with
                   | Some device => parent_GetLengthPath device outFileName
                   | None => fail NullDeref
                   end
              else ret outSize) ;;
  (if (negb result || (outSize =? 0)%Z)%bool
   then
     update i (set_status StatusError) ;;
     update i (set_getRequest None) ;;
     caller <- ask (fun h => core_GetData env h "gta-core-five:loadCaller") ;;
     let reason :=
       match caller with
       | Some c => if String.eqb c "" then None else Some c
       | None => None
       end in
     emit (EvTrace (TraceFailure errorData reason (outSize =? 0)%Z)) ;;
     emit (EvSetData "rcd:error" errorData reason (outSize =? 0)%Z)
   else
     hd <- slot i ;;
     emit (EvTrace (TraceDownloaded (basename (entry hd)) outSize)) ;;
     w <- get ;;
     when (bool_decide (referenceHash (entry hd) ∈ g_downloadedSet w))
       (emit (EvTrace (TraceTwice (basename (entry hd))))) ;;
     modify (fun w => set_downloadedSet ({[referenceHash (entry hd)]} ∪ g_downloadedSet w) w) ;;
     let metaData : gmap string string :=
       <["from" := remoteUrl (entry hd)]>
         (<["resource" := resourceName (entry hd)]>
            (<["filename" := basename (entry hd)]> ∅)) in
     AddEntryToCache outFileName metaData i ;;
     update i (set_parentDevice (vfs_GetDevice env outFileName)) ;;
     hd <- slot i ;;
     match parentDevice hd with
     | Some d =>
         ph <- (if bulkHandle hd
                then parent_OpenBulk d outFileName i
                else parent_Open d outFileName true) ;;
         update i (set_parentHandle ph)
     | None => ret tt
     end ;;
     update i (set_metaData metaData) ;;
     MarkFetched i ;;
     update i (set_status StatusFetched) ;;
     update i (set_getRequest None)) ;;
  emit (EvNotifyAll i).

(** The transport runs the callbacks of request [cl]: the progress reports,
    then the completion. *)
Definition deliver (cl : Closure) (c : Completion) : M unit :=
  for_each (cp_progress c) (progressCallback (cl_slot cl)) ;;
  completion cl (cp_result c) (cp_errorData c) (cp_outSize c).

(** The transport thread reporting progress on request [r] while it is in
    flight. *)
Definition transport_progress (r : RequestId) (info : ProgressInfo) : M unit :=
  w <- get ;;
  match take_request r (inflight w) with
  | Some (cl, _) => progressCallback (cl_slot cl) info
  | None => ret tt
  end.

(** The transport thread finishing request [r] with outcome [c], at a time
    of its own choosing; a request that is not in flight has no callback. *)
Definition transport_complete (r : RequestId) (c : Completion) : M unit :=
  w <- get ;;
  match take_request r (inflight w) with
  | Some (cl, rest) => modify (set_inflight rest) ;; deliver cl c
  | None => ret tt
  end.

(** [handleData->lockVar.wait(lock)] for slot [i].  The wait ends with the
    [notify_all] at the end of the completion callback of a request made
    for this slot; in this sequential embedding that callback runs here,
    with the outcome the transport oracle gives.  With no such request in
    flight nothing ever signals the condition variable.  The source waits
    without a predicate: a wake-up that no notification caused, and a
    notification sent before the wait begins, are runs this embedding does
    not have. *)
Definition wait (i : nat) : M unit :=
  w <- get ;;
  match take_closure i (inflight w) with
  | Some (cl, rest) =>
      modify (set_inflight rest) ;;
      c <- ask (fun h => http_outcome env h cl) ;;
      deliver cl c
  | None => fail WaitsForever
  end.

(** [m_httpClient->DoFileGetRequest]: the transport takes the request and
    keeps its callback; the handle it returns is the request's serial
    number. *)
Definition DoFileGetRequest (url : string) (dest : option DeviceId)
    (outFileName : string) (headers : gmap string string) (weight : Z)
    (i : nat) : M RequestId :=
  w <- get ;;
  let r := length (history w) in
  emit (EvFileGetRequest url dest outFileName headers weight) ;;
  modify (fun w => set_inflight (inflight w ++ [mkClosure r i outFileName]) w) ;;
  ret r.

Definition SetRequestWeight (r : RequestId) (newWeight : Z) : M unit :=
  emit (EvSetRequestWeight r newWeight).

Definition EnsureFetched (i : nat) : M bool :=
  hd <- slot i ;;
  if bool_decide (status hd = StatusFetched) then ret true
  else if bool_decide (status hd = StatusFetching) then
    w <- get ;;
    when (m_blocking w) (wait i) ;;
    ret false
  else
    update i (set_status StatusFetching) ;;
    hd <- slot i ;;
    emit (EvTrace (TraceDownloading (basename (entry hd)) (referenceHash (entry hd))
                     (remoteUrl (entry hd)))) ;;
    extension <- throwing
      (Str.substr (basename (entry hd))
         (Word.wrap64 (Str.pos_of (Str.find_last_of "." (basename (entry hd))) + 1))
         npos) ;;
    w <- get ;;
    let outFileName := m_cachePath w +:+ extension +:+ "_" +:+ referenceHash (entry hd) in
    connectionToken <- ask (fun h => core_GetData env h "connectionToken") ;;
    let headers : gmap string string :=
      match connectionToken with
      | Some t => <["X-CitizenFX-Token" := t]> ∅
      | None => ∅
      end in
    weight <- throwing (GetWeightForFileName (basename (entry hd))) ;;
    r <- DoFileGetRequest (remoteUrl (entry hd)) (vfs_GetDevice env (m_cachePath w))
           outFileName headers weight i ;;
    update i (set_getRequest (Some r)) ;;
    when (m_blocking w) (wait i) ;;
    hd <- slot i ;;
    ret (bool_decide (status hd = StatusFetched)).

(** *** Reading *)

Definition Read (handle size : Z) : M (Z * list Byte.byte) :=
  i <- index_of handle ;;
  fetched <- EnsureFetched i ;;
  hd <- slot i ;;
  if (bool_decide (status hd = StatusNotFetched)
      || bool_decide (status hd = StatusFetching))%bool
  then ret (0, [])
  else if bool_decide (status hd = StatusError)
  then ret (Word.minus_one, [])
  else match parentDevice hd with
       | Some d => parent_Read d (parentHandle hd) size
       | None => fail NullDeref
       end.

Definition ReadBulk (handle ptr size : Z) : M (Z * list Byte.byte) :=
  i <- index_of handle ;;
  fetched <- EnsureFetched i ;;
  hd <- slot i ;;
  if (bool_decide (size = 0xFFFFFFFE) || bool_decide (size = 0xFFFFFFFD))%bool
  then
    match getRequest hd with
    | Some r =>
        let newWeight := if bool_decide (size = 0xFFFFFFFE) then -1 else 1 in
        SetRequestWeight r newWeight
    | None => ret tt
    end ;;
    hd <- slot i ;;
    ret (if bool_decide (status hd = StatusFetched) then 2048 else 0, [])
  else if (bool_decide (status hd = StatusNotFetched)
           || bool_decide (status hd = StatusFetching))%bool
  then ret (0, [])
  else if bool_decide (status hd = StatusError)
  then ret (Word.minus_one, [])
  else match parentDevice hd with
       | Some d =>
           parent_ReadBulk d (parentHandle hd) (Word.wrap64 (ptr + bulkPtr hd)) size
       | None => fail NullDeref
       end.

Definition Seek (handle offset seekType : Z) : M Z :=
  i <- index_of handle ;;
  hd <- slot i ;;
  if bool_decide (status hd <> StatusFetched) then ret Word.minus_one
  else match parentDevice hd with
       | Some d => parent_Seek d (parentHandle hd) offset seekType
       | None => fail NullDeref
       end.

(** *** Closing *)

Definition Close (handle : Z) : M bool :=
  i <- index_of handle ;;
  hd <- slot i ;;
  retval <- (if bool_decide (status hd = StatusFetched)
             then match parentDevice hd with
                  | Some d => parent_Close d (parentHandle hd)
                  | None => fail NullDeref
                  end
             else ret true) ;;
  update i (set_status StatusEmpty) ;;
  ret retval.

Definition CloseBulk (handle : Z) : M bool :=
  i <- index_of handle ;;
  hd <- slot i ;;
  retval <- (if bool_decide (status hd = StatusFetched)
             then match parentDevice hd with
                  | Some d => parent_CloseBulk d (parentHandle hd)
                  | None => fail NullDeref
                  end
             else ret true) ;;
  update i (set_status StatusEmpty) ;;
  ret retval.

(** *** Enumeration, lengths, attributes *)

Definition FindFirst (folder : string) : M Z := ret Word.minus_one.

Definition FindNext (handle : Z) : M bool := ret false.

Definition FindClose (handle : Z) : M unit := ret tt.

Definition GetLength (handle : Z) : M Z :=
  i <- index_of handle ;;
  hd <- slot i ;;
  if bool_decide (status hd = StatusFetched)
  then match parentDevice hd with
       | Some d => parent_GetLength d (parentHandle hd)
       | None => fail NullDeref
       end
  else ret (size (entry hd)).

Definition GetLengthOfFile (fileName : string) : M Z :=
  found <- GetEntryForFileName fileName ;;
  match found with
  | Some e => ret (size e)
  | None => ret Word.minus_one
  end.

(** The result is a [uint32_t]. *)
Definition GetAttributes (fileName : string) : M Z :=
  found <- GetEntryForFileName fileName ;;
  match found with
  | Some e => ret 0
  | None => ret (Word.wrap32 (-1))
  end.

(** *** Extension control *)

Definition map_at (m : gmap string string) (k : string) : string :=
  default "" (m !! k).

(** [controlData] is read as a [GetRagePageFlagsExtension] only under the
    page-flags opcode; the record is returned as the call leaves it. *)
Definition ExtensionCtl (controlIdx : Z) (data : GetRagePageFlagsExtension)
    (controlSize : Z) : M (bool * GetRagePageFlagsExtension) :=
  if bool_decide (controlIdx = VFS_GET_RAGE_PAGE_FLAGS) then
    found <- GetEntryForFileName (fileName data) ;;
    match found with
    | Some e =>
        let v := Str.atoi (map_at (extData e) "rscVersion") in
        let f1 := Str.strtoul (map_at (extData e) "rscPagesVirtual") in
        let f2 := Str.strtoul (map_at (extData e) "rscPagesPhysical") in
        ret (true, mkGetRagePageFlagsExtension (fileName data) v (mkResourceFlags f1 f2))
    | None => ret (false, data)
    end
  else ret (false, data).

Definition SetPathPrefix (pathPrefix : string) : M unit :=
  modify (set_pathPrefix pathPrefix).

End Device.

(* ------------------------------------------------------------------------- *)
(** ** A device as mounted, and a small environment to run it in *)

Definition no_entry : Entry := mkEntry "" "" "" "" 0 ∅.

(** Modelled from the spec: the [HandleData] constructor is declared in
    [ResourceCacheDevice.h]; a slot starts [Empty] with no parent device and
    no request. *)
Definition empty_slot : HandleData :=
  mkHandleData StatusEmpty no_entry false None 0 0 0 0 None ∅.

(** [new ResourceCacheDevice(cache, blocking)] with a table of [n] slots. *)
Definition new_device (blocking : bool) (cachePath : string) (n : nat) : World :=
  mkWorld (replicate n empty_slot) blocking cachePath "" ∅ [] ∅ [].

Module Sample.

Definition rsc_fields : gmap string string :=
  <["rscVersion" := "3"]>
    (<["rscPagesVirtual" := "16"]> (<["rscPagesPhysical" := "4"]> ∅)).

Definition model_ytd : Entry :=
  mkEntry "model.ytd" "cars" "c0ffee" "https://origin/cars/model.ytd" 4096 rsc_fields.

Definition manifest : gmap string (gmap string Entry) :=
  {[ "cars" := {[ "model.ytd" := model_ytd ]} ]}.

Definition local_device : DeviceId := 1%nat.

Definition payload : list Byte.byte := [Byte.x52; Byte.x53; Byte.x43].

(** An environment with one resource; [cached] says whether the cache holds
    the hash, [opened] is what the local device answers to an open, and
    [outcome] is how every transfer ends. *)
Definition env (cached : bool) (opened : Z) (outcome : Completion) : Env :=
  {| resources := manifest;
     cache_GetEntryFor := fun _ hash =>
       if (cached && String.eqb hash "c0ffee")%bool
       then Some (mkCacheEntry "cache/ytd_c0ffee" ∅) else None;
     vfs_GetDevice := fun _ => Some local_device;
     dev_Open := fun _ _ _ _ => opened;
     dev_OpenBulk := fun _ _ _ => (opened, 512);
     dev_Read := fun _ _ _ _ => (3, payload);
     dev_ReadBulk := fun _ _ _ _ _ => (3, payload);
     dev_Seek := fun _ _ _ offset _ => offset;
     dev_Close := fun _ _ _ => true;
     dev_CloseBulk := fun _ _ _ => true;
     dev_GetLength := fun _ _ _ => 4096;
     dev_GetLengthPath := fun _ _ _ => 4096;
     core_GetData := fun _ _ => None;
     http_outcome := fun _ _ => outcome |}.

Definition transfer_ok : Completion := mkCompletion [mkProgressInfo 4096 4096] true "" 4096.

Definition transfer_failed : Completion := mkCompletion [] false "404" 0.

Definition path : string := "cars/model.ytd".

Definition env_hit : Env := env true 7 transfer_ok.

Definition env_miss : Env := env false 7 transfer_ok.

(** Every transfer fails. *)
Definition env_offline : Env := env false 7 transfer_failed.

(** The transfer succeeds and the file has a length, but the local device
    then fails to open it. *)
Definition env_open_fails : Env := env false InvalidHandle transfer_ok.

(** A bulk handle on the cached file, opened at offset 512 of its stream. *)
Definition fetched_slot : HandleData :=
  mkHandleData StatusFetched model_ytd true (Some local_device) 7 512 0 0 None ∅.

(** A handle whose download is request 3 of the transport. *)
Definition fetching_slot : HandleData :=
  mkHandleData StatusFetching model_ytd true None 0 0 0 0 (Some 3%nat) ∅.

(** A non-blocking device of two slots, the first one in use. *)
Definition table (hd : HandleData) : World :=
  mkWorld [hd; empty_slot] false "cache/" "" ∅ [] ∅ [].

End Sample.

(* ------------------------------------------------------------------------- *)
(** ** Observations on runs *)

(** The world a call leaves behind, however it ends. *)
Definition world_of {A} (o : Outcome A) : World :=
  match o with
  | Ok _ w => w
  | Fail _ w => w
  end.

(** A read of file content on a parent device. *)
Definition is_parent_read (e : Event) : bool :=
  match e with
  | EvRead _ _ _ | EvReadBulk _ _ _ _ => true
  | _ => false
  end.

(** A request handed to the HTTP transport. *)
Definition is_fetch (e : Event) : bool :=
  match e with
  | EvFileGetRequest _ _ _ _ _ => true
  | _ => false
  end.

Definition is_set_weight (e : Event) : bool :=
  match e with
  | EvSetRequestWeight _ _ => true
  | _ => false
  end.

Fixpoint count (p : Event -> bool) (h : History) : nat :=
  match h with
  | [] => O
  | e :: h' => if p e then S (count p h') else count p h'
  end.

(** The calls the fetch controller and [OpenInternal] make on their own:
    everything but reads, seeks, closes and length queries on an open parent
    handle and the priority adjustment of a request. *)
Definition fetch_side (e : Event) : bool :=
  match e with
  | EvOpen _ _ _ | EvOpenBulk _ _ | EvGetLengthPath _ _ | EvAddEntry _ _
  | EvFileGetRequest _ _ _ _ _ | EvCacheDownloadStatus _ _ _
  | EvSetData _ _ _ _ | EvNotifyAll _ | EvTrace _ => true
  | _ => false
  end.

(** The statuses a slot can have once [EnsureFetched] has looked at it. *)
Definition settled (s : Status) : Prop :=
  s = StatusFetching \/ s = StatusFetched \/ s = StatusError.

(** A field assignment that leaves the status alone or sets it to a settled
    one. *)
Definition settles_status (f : HandleData -> HandleData) : Prop :=
  forall hd, status (f hd) = status hd \/ settled (status (f hd)).

(** [m] relates every world it starts in to the one it leaves, in [R]. *)
Definition keeps (R : World -> World -> Prop) {A} (m : M A) : Prop :=
  forall w, R w (world_of (m w)).

(** Two worlds agree on an observation. *)
Definition same {X} (view : World -> X) (w w' : World) : Prop :=
  view w' = view w.

(** The status of slot [i], if the table has it. *)
Definition status_at (i : nat) (w : World) : option Status :=
  status <$> m_handles w !! i.

(** What [Close] and [CloseBulk] do to slot [i], which held [hd] in [w]: the
    slot ends [Empty] and no other slot changes; a [Fetched] slot is closed on
    its parent device (the call [call d], answered [answer d]) and that answer
    is returned, any other slot returns [true] without a call. *)
Definition releases (out : Outcome bool) (i : nat) (hd : HandleData) (w : World)
    (answer : DeviceId -> bool) (call : DeviceId -> Event) : Prop :=
  exists r w',
    out = Ok r w' /\
    status_at i w' = Some StatusEmpty /\
    (forall j, j <> i -> m_handles w' !! j = m_handles w !! j) /\
    (status hd = StatusFetched ->
       exists d, parentDevice hd = Some d /\ r = answer d /\
                 history w' = call d :: history w) /\
    (status hd <> StatusFetched -> r = true /\ history w' = history w).

(** Slot [i] has reached a settled status in [w'], or has the status it had
    in [w]. *)
Definition settles (i : nat) (w w' : World) : Prop :=
  (exists s, status_at i w' = Some s /\ settled s) \/ status_at i w' = status_at i w.

(** A slot marked [Fetched] refers to a device. *)
Definition has_parent (hd : HandleData) : Prop :=
  status hd = StatusFetched -> parentDevice hd <> None.

(** The part of the handle invariant that every operation of the device
    maintains. *)
Definition parents_present (w : World) : Prop :=
  forall i hd, m_handles w !! i = Some hd -> has_parent hd.

(** A step from [w] to [w'] does not break that part. *)
Definition guards (w w' : World) : Prop :=
  parents_present w -> parents_present w'.

(** A field assignment after which a slot that had its parent still has it. *)
Definition keeps_parent (f : HandleData -> HandleData) : Prop :=
  forall hd, has_parent hd -> has_parent (f hd).

(** The worlds a device can be in: as mounted, and after any call of the
    facade or of the transport's callbacks, however the call ends. *)
Inductive reachable (env : Env) : World -> Prop :=
| reach_new blocking cachePath n :
    reachable env (new_device blocking cachePath n)
| reach_SetPathPrefix w prefix :
    reachable env w -> reachable env (world_of (SetPathPrefix prefix w))
| reach_Open w fileName readOnly :
    reachable env w -> reachable env (world_of (Open env fileName readOnly w))
| reach_OpenBulk w fileName ptr :
    reachable env w -> reachable env (world_of (OpenBulk env fileName ptr w))
| reach_Read w handle size :
    reachable env w -> reachable env (world_of (Read env handle size w))
| reach_ReadBulk w handle ptr size :
    reachable env w -> reachable env (world_of (ReadBulk env handle ptr size w))
| reach_Seek w handle offset seekType :
    reachable env w -> reachable env (world_of (Seek env handle offset seekType w))
| reach_Close w handle :
    reachable env w -> reachable env (world_of (Close env handle w))
| reach_CloseBulk w handle :
    reachable env w -> reachable env (world_of (CloseBulk env handle w))
| reach_GetLength w handle :
    reachable env w -> reachable env (world_of (GetLength env handle w))
| reach_ExtensionCtl w controlIdx data controlSize :
    reachable env w ->
    reachable env (world_of (ExtensionCtl env controlIdx data controlSize w))
| reach_progress w r info :
    reachable env w -> reachable env (world_of (transport_progress r info w))
| reach_complete w r c :
    reachable env w -> reachable env (world_of (transport_complete env r c w)).

(* ------------------------------------------------------------------------- *)
(** ** Names for what a dispatch produces *)

(** The staging file [EnsureFetched] has an entry downloaded to:
    [m_cachePath + extension + "_" + referenceHash], the extension being
    what follows the last dot of the base name. *)
Definition outFileName_of (cachePath : string) (e : Entry) : string :=
  cachePath
  +:+ default ""
        (Str.substr (basename e)
           (Word.wrap64 (Str.pos_of (Str.find_last_of "." (basename e)) + 1)) npos)
  +:+ "_" +:+ referenceHash e.

(** [options.headers] of the request: the connection token when the game
    init store has one. *)
Definition headers_with (token : option string) : gmap string string :=
  match token with
  | Some t => <["X-CitizenFX-Token" := t]> ∅
  | None => ∅
  end.

(** The request [EnsureFetched] makes for a slot holding [hd], in world [w]. *)
Definition request_of (env : Env) (hd : HandleData) (weight : Z) (w : World) : Event :=
  EvFileGetRequest (remoteUrl (entry hd)) (vfs_GetDevice env (m_cachePath w))
    (outFileName_of (m_cachePath w) (entry hd))
    (headers_with
       (core_GetData env
          (EvTrace (TraceDownloading (basename (entry hd)) (referenceHash (entry hd))
                      (remoteUrl (entry hd))) :: history w)
          "connectionToken"))
    weight.

(** The world a non-blocking [EnsureFetched] leaves when it has handed the
    download of slot [i] to the transport: the slot is [Fetching] and holds
    the handle of the request, the request is in flight with its callback,
    and the history has the log line and the request. *)
Definition dispatched (env : Env) (i : nat) (hd : HandleData) (weight : Z) (w : World)
    : World :=
  let r := S (length (history w)) in
  mkWorld
    (<[i := set_getRequest (Some r) (set_status StatusFetching hd)]> (m_handles w))
    (m_blocking w) (m_cachePath w) (m_pathPrefix w) (g_downloadedSet w)
    (inflight w ++ [mkClosure r i (outFileName_of (m_cachePath w) (entry hd))])
    (cells w)
    (request_of env hd weight w
       :: EvTrace (TraceDownloading (basename (entry hd)) (referenceHash (entry hd))
                     (remoteUrl (entry hd)))
       :: history w).

(** A registration of a downloaded file with the cache. *)
Definition is_add_entry (e : Event) : bool :=
  match e with
  | EvAddEntry _ _ => true
  | _ => false
  end.


(** Further worlds and environments to run the device on. *)
Module Scenario.

(** A device of four free slots. *)
Definition fresh : World := new_device false "cache/" 4.

(** The same device mounted under a prefix. *)
Definition mounted : World :=
  mkWorld (replicate 4 empty_slot) false "cache/" "resources:/" ∅ [] ∅ [].

(** An entry whose base name has no extension and which has no RSC fields. *)
Definition readme : Entry :=
  mkEntry "README" "cars" "beef" "https://origin/cars/README" 12 ∅.

(** The environment of [Sample.env_miss] with [readme] as its only file. *)
Definition env_plain : Env :=
  {| resources := {[ "cars" := {[ "README" := readme ]} ]};
     cache_GetEntryFor := cache_GetEntryFor Sample.env_miss;
     vfs_GetDevice := vfs_GetDevice Sample.env_miss;
     dev_Open := dev_Open Sample.env_miss;
     dev_OpenBulk := dev_OpenBulk Sample.env_miss;
     dev_Read := dev_Read Sample.env_miss;
     dev_ReadBulk := dev_ReadBulk Sample.env_miss;
     dev_Seek := dev_Seek Sample.env_miss;
     dev_Close := dev_Close Sample.env_miss;
     dev_CloseBulk := dev_CloseBulk Sample.env_miss;
     dev_GetLength := dev_GetLength Sample.env_miss;
     dev_GetLengthPath := dev_GetLengthPath Sample.env_miss;
     core_GetData := core_GetData Sample.env_miss;
     http_outcome := http_outcome Sample.env_miss |}.

(** The cache holds the file but the local device cannot open it. *)
Definition env_stale : Env := Sample.env true InvalidHandle Sample.transfer_ok.

(** A handle on [e] as [Open] leaves it when the cache has no copy. *)
Definition waiting (e : Entry) : HandleData :=
  mkHandleData StatusNotFetched e false None 0 0 0 0 None ∅.

(** Two handles on the same entry, neither fetched. *)
Definition two_waiting (blocking : bool) : World :=
  mkWorld [waiting Sample.model_ytd; waiting Sample.model_ytd] blocking "cache/" ""
    ∅ [] ∅ [].

(** The staging file of [Sample.model_ytd] and the closure of the request
    [Sample.fetching_slot] waits for. *)
Definition staged : string := "cache/ytd_c0ffee".

Definition pending : Closure := mkClosure 3%nat 0%nat staged.

Definition opened_once : World :=
  world_of (Open Sample.env_miss Sample.path true fresh).

Definition opened_twice : World :=
  world_of (Open Sample.env_miss Sample.path true opened_once).





(** A download in flight for slot 0, and the slot closed under it. *)
Definition downloading : World :=
  dispatched Sample.env_miss 0%nat (waiting Sample.model_ytd) 64
    (Sample.table (waiting Sample.model_ytd)).

Definition closed_early : World := world_of (Close Sample.env_miss 0 downloading).

Definition completed_late : World :=
  world_of (transport_complete Sample.env_miss 1%nat Sample.transfer_ok closed_early).

End Scenario.

(* ------------------------------------------------------------------------- *)
(** * Properties *)

Local Open Scope dev_scope.

(** ** Running the monad *)

Lemma bind_Ok {A B} (m : M A) (k : A -> M B) w a w' :
  m w = Ok a w' -> bind m k w = k a w'.
Proof. intros H. unfold bind. now rewrite H. Qed.

Lemma bind_Fail {A B} (m : M A) (k : A -> M B) w f w' :
  m w = Fail f w' -> bind m k w = Fail f w'.
Proof. intros H. unfold bind. now rewrite H. Qed.

Lemma bind_inv {A B} (m : M A) (k : A -> M B) w b w2 :
  bind m k w = Ok b w2 -> exists a w1, m w = Ok a w1 /\ k a w1 = Ok b w2.
Proof.
  unfold bind. destruct (m w) as [a w1|f w1]; [eauto | discriminate].
Qed.

Lemma index_of_Ok handle w hd :
  0 <= handle -> m_handles w !! Z.to_nat handle = Some hd ->
  index_of handle w = Ok (Z.to_nat handle) w.
Proof.
  intros H0 Hl. unfold index_of.
  apply lookup_lt_Some in Hl.
  rewrite decide_True; [reflexivity | lia].
Qed.

Lemma slot_Ok i w hd : m_handles w !! i = Some hd -> slot i w = Ok hd w.
Proof. intros H. unfold slot. now rewrite H. Qed.

Lemma update_Ok i f w hd :
  m_handles w !! i = Some hd ->
  update i f w = Ok tt (set_handles (<[i := f hd]> (m_handles w)) w).
Proof. intros H. unfold update. now rewrite H. Qed.

(** ** Relations every step of a call keeps *)

Section Keeps.

Variable R : World -> World -> Prop.
Hypothesis R_pre : PreOrder R.

Lemma keeps_ret {A} (a : A) : keeps R (ret a).
Proof. intros w. simpl. reflexivity. Qed.

Lemma keeps_fail {A} f : keeps R (@fail A f).
Proof. intros w. simpl. reflexivity. Qed.

Lemma keeps_get : keeps R get.
Proof. intros w. simpl. reflexivity. Qed.

Lemma keeps_ask {A} (q : History -> A) : keeps R (ask q).
Proof. intros w. simpl. reflexivity. Qed.

Lemma keeps_slot i : keeps R (slot i).
Proof. intros w. unfold slot. destruct (m_handles w !! i); simpl; reflexivity. Qed.

Lemma keeps_index_of h : keeps R (index_of h).
Proof. intros w. unfold index_of. case_decide; simpl; reflexivity. Qed.

Lemma keeps_throwing {A} (o : option A) : keeps R (throwing o).
Proof. intros w. destruct o; simpl; reflexivity. Qed.

Lemma keeps_bind {A B} (m : M A) (k : A -> M B) :
  keeps R m -> (forall a, keeps R (k a)) -> keeps R (bind m k).
Proof.
  intros Hm Hk w. unfold bind. specialize (Hm w).
  destruct (m w) as [a w1|f w1]; simpl in *; [| exact Hm].
  etransitivity; [exact Hm | apply Hk].
Qed.

Lemma keeps_when b m : keeps R m -> keeps R (when b m).
Proof. intros H. destruct b; simpl; [exact H | apply keeps_ret]. Qed.

Lemma keeps_for_each {A} (l : list A) body :
  (forall a, keeps R (body a)) -> keeps R (for_each l body).
Proof.
  intros H. induction l as [|a l IH]; simpl.
  - apply keeps_ret.
  - apply keeps_bind; [apply H | intros _; exact IH].
Qed.

Lemma keeps_modify f : (forall w, R w (f w)) -> keeps R (modify f).
Proof. intros H w. simpl. apply H. Qed.

End Keeps.

Ltac keeps_step :=
  lazymatch goal with
  | |- keeps _ (bind _ _) => apply keeps_bind; [assumption | | intros ?]
  | |- keeps _ (ret _) => apply keeps_ret; assumption
  | |- keeps _ (fail _) => apply keeps_fail; assumption
  | |- keeps _ get => apply keeps_get; assumption
  | |- keeps _ (ask _) => apply keeps_ask; assumption
  | |- keeps _ (slot _) => apply keeps_slot; assumption
  | |- keeps _ (index_of _) => apply keeps_index_of; assumption
  | |- keeps _ (throwing _) => apply keeps_throwing; assumption
  | |- keeps _ (when _ _) => apply keeps_when; [assumption |]
  | |- keeps _ (for_each _ _) => apply keeps_for_each; [assumption | intros ?]
  | |- keeps _ (MarkFetched _) => apply keeps_ret; assumption
  | |- keeps _ (match ?x with _ => _ end) => destruct x
  | |- keeps _ (let _ := _ in _) => cbv zeta
  end.

(** The fetch controller around the completion callback: a relation that
    survives the callback and the assignments to [downloadProgress],
    [downloadSize], [getRequest] and of [StatusFetching] survives
    [EnsureFetched]. *)
Section StableFetch.

Variable env : Env.
Variable R : World -> World -> Prop.
Variable okf : (HandleData -> HandleData) -> Prop.
Hypothesis R_pre : PreOrder R.
Hypothesis R_update : forall w i f hd,
  okf f ->
  m_handles w !! i = Some hd ->
  R w (set_handles (<[i := f hd]> (m_handles w)) w).
Hypothesis ok_download : forall now total, okf (set_download now total).
Hypothesis ok_request : forall r, okf (set_getRequest r).
Hypothesis ok_fetching : okf (set_status StatusFetching).
Hypothesis R_inflight : forall w l, R w (set_inflight l w).
Hypothesis R_emit : forall w e,
  fetch_side e = true -> R w (set_history (e :: history w) w).
Hypothesis R_completion : forall cl result errorData outSize,
  keeps R (completion env cl result errorData outSize).

Lemma keeps_field i f : okf f -> keeps R (update i f).
Proof.
  intros Hf w. unfold update. destruct (m_handles w !! i) as [hd|] eqn:E; simpl.
  - now apply R_update.
  - reflexivity.
Qed.

Ltac fetching :=
  repeat first
    [ keeps_step
    | apply keeps_field; first [apply ok_download | apply ok_request | apply ok_fetching]
    | apply keeps_modify; intros ?;
      first [apply R_inflight | apply R_emit; reflexivity] ].

Lemma keeps_progressCallback i info : keeps R (progressCallback i info).
Proof. unfold progressCallback, emit. fetching. Qed.

Lemma keeps_deliver cl c : keeps R (deliver env cl c).
Proof.
  unfold deliver. keeps_step; [| apply R_completion].
  keeps_step. apply keeps_progressCallback.
Qed.

Lemma keeps_wait i : keeps R (wait env i).
Proof.
  unfold wait. keeps_step; [fetching |].
  keeps_step; [| fetching]. destruct p as [cl rest].
  keeps_step; [fetching |]. keeps_step; [fetching |]. apply keeps_deliver.
Qed.

Lemma keeps_DoFileGetRequest url dest out headers weight i :
  keeps R (DoFileGetRequest url dest out headers weight i).
Proof. unfold DoFileGetRequest, emit. fetching. Qed.

(** [EnsureFetched] from the point where it has set [StatusFetching]. *)
Lemma keeps_dispatch i :
  keeps R
    (hd <- slot i ;;
     emit (EvTrace (TraceDownloading (basename (entry hd)) (referenceHash (entry hd))
                      (remoteUrl (entry hd)))) ;;
     extension <- throwing
       (Str.substr (basename (entry hd))
          (Word.wrap64 (Str.pos_of (Str.find_last_of "." (basename (entry hd))) + 1))
          npos) ;;
     w <- get ;;
     let outFileName := m_cachePath w +:+ extension +:+ "_" +:+ referenceHash (entry hd) in
     connectionToken <- ask (fun h => core_GetData env h "connectionToken") ;;
     let headers : gmap string string :=
       match connectionToken with
       | Some t => <["X-CitizenFX-Token" := t]> ∅
       | None => ∅
       end in
     weight <- throwing (GetWeightForFileName (basename (entry hd))) ;;
     r <- DoFileGetRequest (remoteUrl (entry hd)) (vfs_GetDevice env (m_cachePath w))
            outFileName headers weight i ;;
     update i (set_getRequest (Some r)) ;;
     when (m_blocking w) (wait env i) ;;
     hd <- slot i ;;
     ret (bool_decide (status hd = StatusFetched))).
Proof.
  unfold emit.
  repeat first [ apply keeps_wait | apply keeps_DoFileGetRequest | fetching ].
Qed.

Lemma keeps_EnsureFetched_around i : keeps R (EnsureFetched env i).
Proof.
  unfold EnsureFetched.
  keeps_step; [fetching |]. keeps_step; [fetching |]. keeps_step.
  - repeat first [ apply keeps_wait | fetching ].
  - keeps_step; [fetching |]. apply keeps_dispatch.
Qed.

End StableFetch.

(** A relation that survives every assignment that settles the status
    survives the completion callback, and with it the fetch controller. *)
Section Stable.

Variable env : Env.
Variable R : World -> World -> Prop.
Hypothesis R_pre : PreOrder R.
Hypothesis R_update : forall w i f hd,
  settles_status f ->
  m_handles w !! i = Some hd ->
  R w (set_handles (<[i := f hd]> (m_handles w)) w).
Hypothesis R_inflight : forall w l, R w (set_inflight l w).
Hypothesis R_downloaded : forall w s, R w (set_downloadedSet s w).
Hypothesis R_emit : forall w e,
  fetch_side e = true -> R w (set_history (e :: history w) w).

Lemma keeps_update i f : settles_status f -> keeps R (update i f).
Proof.
  intros Hf w. unfold update. destruct (m_handles w !! i) as [hd|] eqn:E; simpl.
  - now apply R_update.
  - reflexivity.
Qed.

Lemma keeps_emit e : fetch_side e = true -> keeps R (emit e).
Proof. intros H w. simpl. now apply R_emit. Qed.

Ltac settle := intros ?; simpl; unfold settled; auto.

Ltac stable :=
  repeat first
    [ keeps_step
    | apply keeps_update; settle
    | apply keeps_emit; reflexivity
    | apply keeps_modify; intros ?; first [apply R_inflight | apply R_downloaded] ].

Lemma keeps_parent_Open d path ro : keeps R (parent_Open env d path ro).
Proof. unfold parent_Open. stable. Qed.

Lemma keeps_parent_OpenBulk d path i : keeps R (parent_OpenBulk env d path i).
Proof. unfold parent_OpenBulk. stable. Qed.

Lemma keeps_parent_GetLengthPath d path : keeps R (parent_GetLengthPath env d path).
Proof. unfold parent_GetLengthPath. stable. Qed.

Lemma keeps_completion cl result errorData outSize :
  keeps R (completion env cl result errorData outSize).
Proof.
  unfold completion, AddEntryToCache.
  repeat first
    [ apply keeps_parent_Open | apply keeps_parent_OpenBulk
    | apply keeps_parent_GetLengthPath | stable ].
Qed.

Ltac around :=
  first [ apply keeps_completion
        | intros ? ? ?; left; reflexivity
        | intros ? ?; left; reflexivity
        | intros ?; right; unfold settled; auto ].

Lemma keeps_EnsureFetched i : keeps R (EnsureFetched env i).
Proof.
  apply (keeps_EnsureFetched_around env R settles_status); auto; around.
Qed.

Lemma keeps_dispatched i :
  keeps R
    (hd <- slot i ;;
     emit (EvTrace (TraceDownloading (basename (entry hd)) (referenceHash (entry hd))
                      (remoteUrl (entry hd)))) ;;
     extension <- throwing
       (Str.substr (basename (entry hd))
          (Word.wrap64 (Str.pos_of (Str.find_last_of "." (basename (entry hd))) + 1))
          npos) ;;
     w <- get ;;
     let outFileName := m_cachePath w +:+ extension +:+ "_" +:+ referenceHash (entry hd) in
     connectionToken <- ask (fun h => core_GetData env h "connectionToken") ;;
     let headers : gmap string string :=
       match connectionToken with
       | Some t => <["X-CitizenFX-Token" := t]> ∅
       | None => ∅
       end in
     weight <- throwing (GetWeightForFileName (basename (entry hd))) ;;
     r <- DoFileGetRequest (remoteUrl (entry hd)) (vfs_GetDevice env (m_cachePath w))
            outFileName headers weight i ;;
     update i (set_getRequest (Some r)) ;;
     when (m_blocking w) (wait env i) ;;
     hd <- slot i ;;
     ret (bool_decide (status hd = StatusFetched))).
Proof.
  apply (keeps_dispatch env R settles_status); auto; around.
Qed.

Lemma keeps_waiting i : keeps R (wait env i).
Proof.
  apply (keeps_wait env R settles_status); auto; around.
Qed.

End Stable.

(** A relation that in addition survives any assignment to a slot survives
    [OpenInternal]. *)
Section StableOpen.

Variable env : Env.
Variable R : World -> World -> Prop.
Hypothesis R_pre : PreOrder R.
Hypothesis R_update : forall w i x,
  (i < length (m_handles w))%nat -> R w (set_handles (<[i := x]> (m_handles w)) w).
Hypothesis R_emit : forall w e,
  fetch_side e = true -> R w (set_history (e :: history w) w).

Lemma keeps_assign i f : keeps R (update i f).
Proof.
  intros w. unfold update. destruct (m_handles w !! i) as [hd|] eqn:E; simpl.
  - apply R_update. eapply lookup_lt_Some, E.
  - reflexivity.
Qed.

Ltac opening :=
  repeat first
    [ keeps_step
    | apply keeps_assign
    | apply keeps_modify; intros ?; apply R_emit; reflexivity ].

Lemma keeps_AllocateHandle : keeps R AllocateHandle.
Proof. unfold AllocateHandle. opening. Qed.

Lemma keeps_OpenInternal f p : keeps R (OpenInternal env f p).
Proof.
  unfold OpenInternal, parent_Open, parent_OpenBulk, GetEntryForFileName, emit.
  keeps_step; [opening |].
  keeps_step; [| opening].
  keeps_step; [apply keeps_AllocateHandle |].
  opening.
Qed.

End StableOpen.

(** ** Observations that calls leave alone *)

Lemma same_PreOrder {X} (view : World -> X) : PreOrder (same view).
Proof.
  split.
  - intros w. reflexivity.
  - intros a b c Hab Hbc. unfold same in *. congruence.
Qed.

Section Views.

Variable env : Env.

Lemma OpenInternal_cells f p w :
  cells (world_of (OpenInternal env f p w)) = cells w.
Proof.
  apply (keeps_OpenInternal env (same cells)); try reflexivity.
  apply same_PreOrder.
Qed.

Lemma EnsureFetched_length i w :
  length (m_handles (world_of (EnsureFetched env i w))) = length (m_handles w).
Proof.
  apply (keeps_EnsureFetched env (same (fun w => length (m_handles w))));
    try reflexivity.
  - apply same_PreOrder.
  - intros w0 j f hd _ _. unfold same. simpl. apply length_insert.
Qed.

Lemma EnsureFetched_no_parent_read i w :
  count is_parent_read (history (world_of (EnsureFetched env i w)))
  = count is_parent_read (history w).
Proof.
  apply (keeps_EnsureFetched env (same (fun w => count is_parent_read (history w))));
    try reflexivity.
  - apply same_PreOrder.
  - intros w0 e He. unfold same. simpl. now destruct e.
Qed.

Lemma EnsureFetched_keeps_slot i w b w1 :
  EnsureFetched env i w = Ok b w1 -> exists hd1, m_handles w1 !! i = Some hd1.
Proof.
  intros H. pose proof (EnsureFetched_length i w) as L. rewrite H in L. simpl in L.
  assert (Hi : (i < length (m_handles w))%nat).
  { unfold EnsureFetched in H. apply bind_inv in H as (hd & w' & Hs & _).
    unfold slot in Hs. destruct (m_handles w !! i) eqn:E; [| discriminate].
    eapply lookup_lt_Some, E. }
  apply lookup_lt_is_Some_2. lia.
Qed.

Lemma GetEntryForFileName_world f w :
  world_of (GetEntryForFileName env f w) = w.
Proof.
  unfold GetEntryForFileName, bind, get, throwing, ret, fail.
  destruct (Str.substr f _ _) as [rel|]; [| reflexivity].
  destruct (Str.substr rel 0 _) as [res|]; [| reflexivity].
  destruct (Str.substr rel _ npos) as [item|]; [| reflexivity].
  destruct (resources env !! res); reflexivity.
Qed.

End Views.

(* ------------------------------------------------------------------------- *)
(** ** Release *)

Section Release.

Variable env : Env.

Lemma release_slot (close : DeviceId -> Z -> M bool) answer call handle w hd :
  (forall d w0, close d (parentHandle hd) w0
                = Ok (answer (history w0) d) (set_history (call d :: history w0) w0)) ->
  0 <= handle ->
  m_handles w !! Z.to_nat handle = Some hd ->
  has_parent hd ->
  releases
    ((i <- index_of handle ;;
      hd <- slot i ;;
      retval <- (if bool_decide (status hd = StatusFetched)
                 then match parentDevice hd with
                      | Some d => close d (parentHandle hd)
                      | None => fail NullDeref
                      end
                 else ret true) ;;
      update i (set_status StatusEmpty) ;;
      ret retval) w)
    (Z.to_nat handle) hd w (answer (history w)) call.
Proof.
  intros Hclose H0 Hl Hp.
  rewrite (bind_Ok _ _ _ _ _ (index_of_Ok _ _ _ H0 Hl)).
  rewrite (bind_Ok _ _ _ _ _ (slot_Ok _ _ _ Hl)).
  assert (Hlen : (Z.to_nat handle < length (m_handles w))%nat)
    by (eapply lookup_lt_Some, Hl).
  destruct (decide (status hd = StatusFetched)) as [Hs|Hs].
  - rewrite (bool_decide_eq_true_2 _ Hs).
    destruct (parentDevice hd) as [d|] eqn:Hd; [| now destruct (Hp Hs)].
    unfold bind at 1. rewrite Hclose.
    unfold bind, update, ret. simpl. rewrite Hl.
    eexists _, _. split; [reflexivity |]. unfold status_at. simpl.
    rewrite list_lookup_insert_eq by exact Hlen.
    split; [reflexivity |]. split; [| split].
    + intros j Hj. now apply list_lookup_insert_ne.
    + intros _. exists d. auto.
    + intros Hn. now destruct Hn.
  - rewrite (bool_decide_eq_false_2 _ Hs).
    unfold bind, update, ret. rewrite Hl.
    eexists _, _. split; [reflexivity |]. unfold status_at. simpl.
    rewrite list_lookup_insert_eq by exact Hlen.
    split; [reflexivity |]. split; [| split].
    + intros j Hj. now apply list_lookup_insert_ne.
    + intros Hn. now destruct Hs.
    + intros _. auto.
Qed.

(** C5: for every handle and every prior status of its slot, [Close] and
    [CloseBulk] leave the slot [Empty]; when the slot was [Fetched] they
    close the handle on the parent device and return what that close
    returns, otherwise they return [true] and make no call. *)
Theorem Close_and_CloseBulk_release_the_slot handle w hd :
  0 <= handle ->
  m_handles w !! Z.to_nat handle = Some hd ->
  has_parent hd ->
  releases (Close env handle w) (Z.to_nat handle) hd w
    (fun d => dev_Close env (history w) d (parentHandle hd))
    (fun d => EvClose d (parentHandle hd)) /\
  releases (CloseBulk env handle w) (Z.to_nat handle) hd w
    (fun d => dev_CloseBulk env (history w) d (parentHandle hd))
    (fun d => EvCloseBulk d (parentHandle hd)).
Proof.
  intros H0 Hl Hp. split.
  - apply (release_slot (parent_Close env)
             (fun h d => dev_Close env h d (parentHandle hd))
             (fun d => EvClose d (parentHandle hd))); auto.
  - apply (release_slot (parent_CloseBulk env)
             (fun h d => dev_CloseBulk env h d (parentHandle hd))
             (fun d => EvCloseBulk d (parentHandle hd))); auto.
Qed.

End Release.

Lemma Close_and_CloseBulk_release_the_slot_witness :
  releases (Close Sample.env_hit 0 (Sample.table Sample.fetched_slot)) 0
    Sample.fetched_slot (Sample.table Sample.fetched_slot)
    (fun _ => true) (fun d => EvClose d 7) /\
  releases (CloseBulk Sample.env_hit 0 (Sample.table Sample.fetched_slot)) 0
    Sample.fetched_slot (Sample.table Sample.fetched_slot)
    (fun _ => true) (fun d => EvCloseBulk d 7).
Proof.
  apply (Close_and_CloseBulk_release_the_slot Sample.env_hit 0
           (Sample.table Sample.fetched_slot) Sample.fetched_slot).
  - lia.
  - reflexivity.
  - intros _. discriminate.
Defined.

(* ------------------------------------------------------------------------- *)
(** ** Queries on a handle *)

Section Queries.

Variable env : Env.

(** C7: on a handle whose slot is not [Fetched], [Seek] returns [-1] and
    [GetLength] returns the [size] of the manifest entry, and neither makes
    any call (the world, history included, is unchanged); on a [Fetched]
    handle both are answered by the parent device. *)
Theorem Seek_and_GetLength_by_status handle offset seekType w hd :
  0 <= handle ->
  m_handles w !! Z.to_nat handle = Some hd ->
  (status hd <> StatusFetched ->
     Seek env handle offset seekType w = Ok Word.minus_one w /\
     GetLength env handle w = Ok (size (entry hd)) w) /\
  (status hd = StatusFetched ->
     forall d, parentDevice hd = Some d ->
     Seek env handle offset seekType w
     = Ok (dev_Seek env (history w) d (parentHandle hd) offset seekType)
          (set_history (EvSeek d (parentHandle hd) offset seekType :: history w) w) /\
     GetLength env handle w
     = Ok (dev_GetLength env (history w) d (parentHandle hd))
          (set_history (EvGetLength d (parentHandle hd) :: history w) w)).
Proof.
  intros H0 Hl. unfold Seek, GetLength.
  rewrite !(bind_Ok _ _ _ _ _ (index_of_Ok _ _ _ H0 Hl)).
  rewrite !(bind_Ok _ _ _ _ _ (slot_Ok _ _ _ Hl)).
  split.
  - intros Hs.
    rewrite (bool_decide_eq_true_2 _ Hs), (bool_decide_eq_false_2 _ Hs).
    split; reflexivity.
  - intros Hs d Hd.
    rewrite (bool_decide_eq_true_2 _ Hs).
    rewrite bool_decide_eq_false_2 by (intros Hn; now apply Hn).
    rewrite Hd. split; reflexivity.
Qed.

End Queries.

Lemma Seek_and_GetLength_by_status_witness :
  (status Sample.fetching_slot <> StatusFetched ->
     Seek Sample.env_miss 0 64 0 (Sample.table Sample.fetching_slot)
     = Ok Word.minus_one (Sample.table Sample.fetching_slot) /\
     GetLength Sample.env_miss 0 (Sample.table Sample.fetching_slot)
     = Ok 4096 (Sample.table Sample.fetching_slot)) /\
  (status Sample.fetching_slot = StatusFetched ->
     forall d, parentDevice Sample.fetching_slot = Some d ->
     Seek Sample.env_miss 0 64 0 (Sample.table Sample.fetching_slot)
     = Ok (dev_Seek Sample.env_miss [] d 0 64 0)
          (set_history [EvSeek d 0 64 0] (Sample.table Sample.fetching_slot)) /\
     GetLength Sample.env_miss 0 (Sample.table Sample.fetching_slot)
     = Ok (dev_GetLength Sample.env_miss [] d 0)
          (set_history [EvGetLength d 0] (Sample.table Sample.fetching_slot))).
Proof.
  apply (Seek_and_GetLength_by_status Sample.env_miss 0 64 0
           (Sample.table Sample.fetching_slot) Sample.fetching_slot).
  - lia.
  - reflexivity.
Defined.

(* ------------------------------------------------------------------------- *)
(** ** Resolution failure and the page-flags query *)

Section Resolution.

Variable env : Env.

(** C8: when the path does not resolve to an entry, [Open] returns
    [InvalidHandle] and the world is the one it started in: no slot is
    allocated, no status changes, nothing is requested. *)
Theorem Open_unresolved_has_no_effect fileName readOnly w :
  GetEntryForFileName env fileName w = Ok None w ->
  Open env fileName readOnly w = Ok InvalidHandle w.
Proof.
  intros H. unfold Open. destruct readOnly; simpl; [| reflexivity].
  unfold OpenInternal. now rewrite (bind_Ok _ _ _ _ _ H).
Qed.

(** C9: under the page-flags opcode, a path that resolves to an entry whose
    extension fields are rscVersion = 3, rscPagesVirtual = 16 and
    rscPagesPhysical = 4 gets [true] with version 3, flag1 16 and flag2 4,
    and the world is unchanged (nothing is fetched or opened); a path that
    does not resolve, and any other opcode, get [false]. *)
Theorem ExtensionCtl_page_flags data controlSize w :
  (forall e,
     GetEntryForFileName env (fileName data) w = Ok (Some e) w ->
     extData e !! "rscVersion" = Some "3" ->
     extData e !! "rscPagesVirtual" = Some "16" ->
     extData e !! "rscPagesPhysical" = Some "4" ->
     ExtensionCtl env VFS_GET_RAGE_PAGE_FLAGS data controlSize w
     = Ok (true, mkGetRagePageFlagsExtension (fileName data) 3 (mkResourceFlags 16 4)) w) /\
  (GetEntryForFileName env (fileName data) w = Ok None w ->
     ExtensionCtl env VFS_GET_RAGE_PAGE_FLAGS data controlSize w = Ok (false, data) w) /\
  (forall controlIdx,
     controlIdx <> VFS_GET_RAGE_PAGE_FLAGS ->
     ExtensionCtl env controlIdx data controlSize w = Ok (false, data) w).
Proof.
  unfold ExtensionCtl. split; [| split].
  - intros e He Hv H1 H2.
    rewrite bool_decide_eq_true_2 by reflexivity.
    rewrite (bind_Ok _ _ _ _ _ He). unfold map_at. rewrite Hv, H1, H2.
    reflexivity.
  - intros He.
    rewrite bool_decide_eq_true_2 by reflexivity.
    now rewrite (bind_Ok _ _ _ _ _ He).
  - intros idx Hidx. now rewrite (bool_decide_eq_false_2 _ Hidx).
Qed.

End Resolution.

Lemma Open_unresolved_has_no_effect_witness :
  Open Sample.env_miss "unknownresource/file.txt" true (new_device true "cache/" 4)
  = Ok InvalidHandle (new_device true "cache/" 4).
Proof.
  apply (Open_unresolved_has_no_effect Sample.env_miss "unknownresource/file.txt" true
           (new_device true "cache/" 4)).
  vm_compute. reflexivity.
Defined.

Lemma ExtensionCtl_page_flags_witness :
  ExtensionCtl Sample.env_miss VFS_GET_RAGE_PAGE_FLAGS
    (mkGetRagePageFlagsExtension Sample.path 0 (mkResourceFlags 0 0)) 24
    (new_device false "cache/" 4)
  = Ok (true, mkGetRagePageFlagsExtension Sample.path 3 (mkResourceFlags 16 4))
       (new_device false "cache/" 4).
Proof.
  apply (proj1 (ExtensionCtl_page_flags Sample.env_miss
                  (mkGetRagePageFlagsExtension Sample.path 0 (mkResourceFlags 0 0)) 24
                  (new_device false "cache/" 4)) Sample.model_ytd).
  - vm_compute. reflexivity.
  - vm_compute. reflexivity.
  - vm_compute. reflexivity.
  - vm_compute. reflexivity.
Defined.

(* ------------------------------------------------------------------------- *)
(** ** The out-parameter of OpenBulk *)

Section BulkPointer.

Variable env : Env.

(** C10: for every path, [OpenBulk] has stored 0 in the caller's cell when
    it ends, whether it returns a handle, returns [InvalidHandle] because
    the path does not resolve, or is left by an exception: the store comes
    first and nothing later writes the cell. *)
Theorem OpenBulk_zeroes_the_out_parameter fileName a w :
  cells (world_of (OpenBulk env fileName (Some a) w)) !! a = Some 0 /\
  (GetEntryForFileName env fileName w = Ok None w ->
     OpenBulk env fileName (Some a) w
     = Ok InvalidHandle (set_cells (<[a := 0]> (cells w)) w)).
Proof.
  unfold OpenBulk. split.
  - unfold bind at 1. simpl. rewrite OpenInternal_cells. simpl.
    apply lookup_insert_eq.
  - intros H. unfold bind at 1. simpl. unfold OpenInternal, bind.
    pose proof (GetEntryForFileName_world env fileName
                  (set_cells (<[a := 0]> (cells w)) w)) as Hw.
    assert (Hsame : forall c,
               GetEntryForFileName env fileName (set_cells c w)
               = match GetEntryForFileName env fileName w with
                 | Ok r _ => Ok r (set_cells c w)
                 | Fail f _ => Fail f (set_cells c w)
                 end).
    { intros c. unfold GetEntryForFileName, bind, get, throwing, ret, fail. simpl.
      destruct (Str.substr fileName _ _) as [rel|]; [| reflexivity].
      destruct (Str.substr rel 0 _) as [res|]; [| reflexivity].
      destruct (Str.substr rel _ npos) as [item|]; [| reflexivity].
      destruct (resources env !! res); reflexivity. }
    rewrite Hsame, H. reflexivity.
Qed.

End BulkPointer.

Lemma OpenBulk_zeroes_the_out_parameter_witness :
  OpenBulk Sample.env_miss "unknownresource/file.txt" (Some 5%nat)
    (set_cells {[ 5%nat := 77 ]} (new_device true "cache/" 4))
  = Ok InvalidHandle
       (set_cells
          (<[5%nat := 0]> (cells (set_cells {[ 5%nat := 77 ]} (new_device true "cache/" 4))))
          (set_cells {[ 5%nat := 77 ]} (new_device true "cache/" 4))).
Proof.
  apply (proj2 (OpenBulk_zeroes_the_out_parameter Sample.env_miss
                  "unknownresource/file.txt" 5%nat
                  (set_cells {[ 5%nat := 77 ]} (new_device true "cache/" 4)))).
  vm_compute. reflexivity.
Defined.

(* ------------------------------------------------------------------------- *)
(** ** What EnsureFetched leaves in the slot *)

Section Settling.

Variable env : Env.

Lemma settles_PreOrder i : PreOrder (settles i).
Proof.
  split.
  - intros w. right. reflexivity.
  - intros a b c Hab Hbc. unfold settles in *.
    destruct Hbc as [Hc|Hc]; [now left |].
    destruct Hab as [Hb|Hb]; [left | right]; [| congruence].
    now rewrite Hc.
Qed.

Lemma settles_update i w j f hd :
  settles_status f ->
  m_handles w !! j = Some hd ->
  settles i w (set_handles (<[j := f hd]> (m_handles w)) w).
Proof.
  intros Hf Hl. unfold settles, status_at. simpl.
  destruct (decide (j = i)) as [->|Hne].
  - rewrite list_lookup_insert_eq by (eapply lookup_lt_Some, Hl).
    rewrite Hl. simpl. destruct (Hf hd) as [E|E].
    + right. now rewrite E.
    + left. eauto.
  - right. now rewrite list_lookup_insert_ne.
Qed.

Lemma EnsureFetched_fetched i w hd :
  m_handles w !! i = Some hd ->
  status hd = StatusFetched ->
  EnsureFetched env i w = Ok true w.
Proof.
  intros Hl Hs. unfold EnsureFetched.
  rewrite (bind_Ok _ _ _ _ _ (slot_Ok _ _ _ Hl)).
  now rewrite (bool_decide_eq_true_2 _ Hs).
Qed.

(** After [EnsureFetched] has returned, the slot is [Fetching], [Fetched]
    or [Error]: a slot it finds in any other status it sets to [Fetching]
    before it does anything else. *)
Lemma EnsureFetched_settles i w b w1 :
  EnsureFetched env i w = Ok b w1 ->
  exists hd1, m_handles w1 !! i = Some hd1 /\ settled (status hd1).
Proof.
  intros H.
  assert (Hgoal : exists s, status_at i w1 = Some s /\ settled s).
  { unfold EnsureFetched in H.
    apply bind_inv in H as (hd & w0 & Hs & H).
    unfold slot in Hs. destruct (m_handles w !! i) as [hd0|] eqn:Hl; [| discriminate].
    injection Hs as -> <-.
    destruct (decide (status hd = StatusFetched)) as [Hf|Hf].
    { rewrite (bool_decide_eq_true_2 _ Hf) in H. injection H as _ <-.
      exists (status hd). unfold status_at, settled. rewrite Hl. auto. }
    rewrite (bool_decide_eq_false_2 _ Hf) in H.
    destruct (decide (status hd = StatusFetching)) as [Hg|Hg].
    { rewrite (bool_decide_eq_true_2 _ Hg) in H.
      assert (K : keeps (settles i)
                    (w <- get ;; when (m_blocking w) (wait env i) ;; ret false)).
      { pose proof (settles_PreOrder i) as HP.
        repeat keeps_step.
        apply keeps_waiting; try assumption; try (intros; right; reflexivity).
        intros. now apply settles_update. }
      specialize (K w). rewrite H in K. simpl in K.
      destruct K as [K|K]; [exact K |].
      exists (status hd). rewrite K. unfold status_at, settled. rewrite Hl. auto. }
    rewrite (bool_decide_eq_false_2 _ Hg) in H.
    apply bind_inv in H as ([] & w' & Hu & H).
    rewrite (update_Ok _ _ _ _ Hl) in Hu. injection Hu as <-.
    match type of H with
    | ?m ?w0 = _ =>
        assert (K : keeps (settles i) m);
        [ apply keeps_dispatched; try apply settles_PreOrder;
          try (intros; right; reflexivity); intros; now apply settles_update
        | specialize (K w0) ]
    end.
    unfold world_of in K. rewrite H in K.
    destruct K as [K|K]; [exact K |].
    exists StatusFetching. rewrite K. unfold status_at, settled. simpl.
    rewrite list_lookup_insert_eq by (eapply lookup_lt_Some, Hl). auto. }
  destruct Hgoal as (s & Hs & Hset). unfold status_at in Hs.
  destruct (m_handles w1 !! i) as [hd1|]; [| discriminate].
  exists hd1. split; [reflexivity |]. simpl in Hs. congruence.
Qed.

End Settling.

(* ------------------------------------------------------------------------- *)
(** ** Reading *)

Section Reading.

Variable env : Env.

Lemma EnsureFetched_needs_slot i w b w1 :
  EnsureFetched env i w = Ok b w1 -> exists hd, m_handles w !! i = Some hd.
Proof.
  intros H. unfold EnsureFetched in H.
  apply bind_inv in H as (hd & w0 & Hs & _). unfold slot in Hs.
  destruct (m_handles w !! i) as [hd0|]; [eauto | discriminate].
Qed.

Lemma EnsureFetched_no_set_weight i w :
  count is_set_weight (history (world_of (EnsureFetched env i w)))
  = count is_set_weight (history w).
Proof.
  apply (keeps_EnsureFetched env (same (fun w => count is_set_weight (history w))));
    try reflexivity.
  - apply same_PreOrder.
  - intros w0 e He. unfold same. simpl. now destruct e.
Qed.

(** [Read] once [EnsureFetched] has returned. *)
Lemma Read_continues handle n w fetched w1 :
  0 <= handle ->
  EnsureFetched env (Z.to_nat handle) w = Ok fetched w1 ->
  Read env handle n w
  = (hd <- slot (Z.to_nat handle) ;;
     if (bool_decide (status hd = StatusNotFetched)
         || bool_decide (status hd = StatusFetching))%bool
     then ret (0, [])
     else if bool_decide (status hd = StatusError)
     then ret (Word.minus_one, [])
     else match parentDevice hd with
          | Some d => parent_Read env d (parentHandle hd) n
          | None => fail NullDeref
          end) w1.
Proof.
  intros H0 HE. destruct (EnsureFetched_needs_slot _ _ _ _ HE) as [hd Hl].
  unfold Read.
  rewrite (bind_Ok _ _ _ _ _ (index_of_Ok _ _ _ H0 Hl)).
  now rewrite (bind_Ok _ _ _ _ _ HE).
Qed.

(** [ReadBulk] of an ordinary size once [EnsureFetched] has returned. *)
Lemma ReadBulk_continues handle ptr size w fetched w1 hd1 :
  0 <= handle ->
  size <> 0xFFFFFFFE ->
  size <> 0xFFFFFFFD ->
  EnsureFetched env (Z.to_nat handle) w = Ok fetched w1 ->
  m_handles w1 !! Z.to_nat handle = Some hd1 ->
  ReadBulk env handle ptr size w
  = (if (bool_decide (status hd1 = StatusNotFetched)
         || bool_decide (status hd1 = StatusFetching))%bool
     then ret (0, [])
     else if bool_decide (status hd1 = StatusError)
     then ret (Word.minus_one, [])
     else match parentDevice hd1 with
          | Some d =>
              parent_ReadBulk env d (parentHandle hd1)
                (Word.wrap64 (ptr + bulkPtr hd1)) size
          | None => fail NullDeref
          end) w1.
Proof.
  intros H0 Hs1 Hs2 HE Hl1.
  destruct (EnsureFetched_needs_slot _ _ _ _ HE) as [hd Hl].
  unfold ReadBulk.
  rewrite (bind_Ok _ _ _ _ _ (index_of_Ok _ _ _ H0 Hl)).
  rewrite (bind_Ok _ _ _ _ _ HE).
  rewrite (bind_Ok _ _ _ _ _ (slot_Ok _ _ _ Hl1)).
  now rewrite (bool_decide_eq_false_2 _ Hs1), (bool_decide_eq_false_2 _ Hs2).
Qed.

(** C3: with the status the slot has once [EnsureFetched] has returned,
    [Read] and a [ReadBulk] of a size that is not a sentinel return 0 when
    it is [NotFetched] or [Fetching], [(size_t)-1] when it is [Error], and
    what the parent device answers to the same read on the parent handle
    when it is [Fetched]; no other status occurs there. *)
Theorem Read_and_ReadBulk_after_EnsureFetched handle ptr size w fetched w1 hd1 :
  0 <= handle ->
  size <> 0xFFFFFFFE ->
  size <> 0xFFFFFFFD ->
  EnsureFetched env (Z.to_nat handle) w = Ok fetched w1 ->
  m_handles w1 !! Z.to_nat handle = Some hd1 ->
  settled (status hd1) /\
  (status hd1 = StatusNotFetched \/ status hd1 = StatusFetching ->
     (forall n, Read env handle n w = Ok (0, []) w1) /\
     ReadBulk env handle ptr size w = Ok (0, []) w1) /\
  (status hd1 = StatusError ->
     (forall n, Read env handle n w = Ok (Word.minus_one, []) w1) /\
     ReadBulk env handle ptr size w = Ok (Word.minus_one, []) w1) /\
  (status hd1 = StatusFetched ->
     forall d, parentDevice hd1 = Some d ->
     (forall n, Read env handle n w
                = Ok (dev_Read env (history w1) d (parentHandle hd1) n)
                     (set_history (EvRead d (parentHandle hd1) n :: history w1) w1)) /\
     ReadBulk env handle ptr size w
     = Ok (dev_ReadBulk env (history w1) d (parentHandle hd1)
             (Word.wrap64 (ptr + bulkPtr hd1)) size)
          (set_history
             (EvReadBulk d (parentHandle hd1) (Word.wrap64 (ptr + bulkPtr hd1)) size
                :: history w1) w1)).
Proof.
  intros H0 Hs1 Hs2 HE Hl1.
  pose proof (fun n => Read_continues handle n w fetched w1 H0 HE) as HR.
  pose proof (ReadBulk_continues handle ptr size w fetched w1 hd1 H0 Hs1 Hs2 HE Hl1)
    as HB.
  split.
  { destruct (EnsureFetched_settles _ _ _ _ _ HE) as (hd' & Hl' & Hset). congruence. }
  rewrite HB. split; [| split].
  - intros Hst. split.
    + intros n. rewrite HR, (bind_Ok _ _ _ _ _ (slot_Ok _ _ _ Hl1)).
      destruct Hst as [-> | ->]; reflexivity.
    + destruct Hst as [-> | ->]; reflexivity.
  - intros Hst. split.
    + intros n. rewrite HR, (bind_Ok _ _ _ _ _ (slot_Ok _ _ _ Hl1)).
      rewrite Hst. reflexivity.
    + rewrite Hst. reflexivity.
  - intros Hst d Hd. split.
    + intros n. rewrite HR, (bind_Ok _ _ _ _ _ (slot_Ok _ _ _ Hl1)).
      rewrite Hst, Hd. reflexivity.
    + rewrite Hst, Hd. reflexivity.
Qed.

(** C6: on a fetched handle whose bulk base pointer is [B], a [ReadBulk]
    at [ptr] of a size that is not a sentinel is the parent device's
    [ReadBulk] on the parent handle at offset [ptr + B] in 64-bit
    arithmetic, which is [B + ptr] whenever that sum is an offset at all;
    nothing is fetched on the way. *)
Theorem ReadBulk_adds_the_bulk_base handle ptr size w hd d :
  0 <= handle ->
  m_handles w !! Z.to_nat handle = Some hd ->
  status hd = StatusFetched ->
  parentDevice hd = Some d ->
  size <> 0xFFFFFFFE ->
  size <> 0xFFFFFFFD ->
  exists off,
    off = Word.wrap64 (ptr + bulkPtr hd) /\
    (0 <= bulkPtr hd + ptr < Word.modulus -> off = bulkPtr hd + ptr) /\
    ReadBulk env handle ptr size w
    = Ok (dev_ReadBulk env (history w) d (parentHandle hd) off size)
         (set_history (EvReadBulk d (parentHandle hd) off size :: history w) w).
Proof.
  intros H0 Hl Hst Hd Hs1 Hs2. eexists. split; [reflexivity |]. split.
  - intros Hr. unfold Word.wrap64. rewrite Z.mod_small; lia.
  - pose proof (EnsureFetched_fetched env _ _ _ Hl Hst) as HE.
    rewrite (ReadBulk_continues handle ptr size w true w hd H0 Hs1 Hs2 HE Hl).
    rewrite Hst, Hd. reflexivity.
Qed.

(** C2: a [ReadBulk] with either sentinel size reads nothing from a parent
    device and returns 2048 when the slot is [Fetched] and 0 otherwise; it
    calls [SetRequestWeight] once, on the slot's request, when the slot
    holds a request handle, and not at all when it holds none.  The status
    and the request handle are the ones the slot has when [ReadBulk] looks
    at them, after its call of [EnsureFetched]. *)
Theorem ReadBulk_sentinel_probe handle ptr size w fetched w1 :
  size = 0xFFFFFFFE \/ size = 0xFFFFFFFD ->
  0 <= handle ->
  EnsureFetched env (Z.to_nat handle) w = Ok fetched w1 ->
  exists hd1 w2,
    m_handles w1 !! Z.to_nat handle = Some hd1 /\
    ReadBulk env handle ptr size w
    = Ok (if bool_decide (status hd1 = StatusFetched) then 2048 else 0, []) w2 /\
    m_handles w2 = m_handles w1 /\
    count is_parent_read (history w2) = count is_parent_read (history w) /\
    count is_set_weight (history w2)
    = (count is_set_weight (history w)
       + match getRequest hd1 with Some _ => 1 | None => 0 end)%nat /\
    history w2
    = (match getRequest hd1 with
       | Some r =>
           [EvSetRequestWeight r (if bool_decide (size = 0xFFFFFFFE) then -1 else 1)]
       | None => []
       end ++ history w1)%list.
Proof.
  intros Hsz H0 HE.
  destruct (EnsureFetched_needs_slot _ _ _ _ HE) as [hd Hl].
  destruct (EnsureFetched_keeps_slot _ _ _ _ _ HE) as [hd1 Hl1].
  pose proof (EnsureFetched_no_parent_read env (Z.to_nat handle) w) as Hread.
  pose proof (EnsureFetched_no_set_weight (Z.to_nat handle) w) as Hweight.
  rewrite HE in Hread, Hweight. simpl in Hread, Hweight.
  exists hd1. unfold ReadBulk.
  rewrite (bind_Ok _ _ _ _ _ (index_of_Ok _ _ _ H0 Hl)).
  rewrite (bind_Ok _ _ _ _ _ HE).
  rewrite (bind_Ok _ _ _ _ _ (slot_Ok _ _ _ Hl1)).
  assert (Hb : (bool_decide (size = 0xFFFFFFFE) || bool_decide (size = 0xFFFFFFFD))%bool
               = true).
  { destruct Hsz as [-> | ->]; reflexivity. }
  rewrite Hb. destruct (getRequest hd1) as [r|] eqn:Hr.
  - unfold bind at 1. unfold SetRequestWeight, emit, modify.
    set (w2 := set_history _ w1).
    assert (Hl2 : m_handles w2 !! Z.to_nat handle = Some hd1) by exact Hl1.
    rewrite (bind_Ok _ _ _ _ _ (slot_Ok _ _ _ Hl2)).
    exists w2. repeat split; simpl; auto. lia.
  - unfold bind at 1. unfold ret at 1.
    rewrite (bind_Ok _ _ _ _ _ (slot_Ok _ _ _ Hl1)).
    exists w1. repeat split; simpl; auto. lia.
Qed.

End Reading.

Lemma Read_and_ReadBulk_after_EnsureFetched_witness :
  Read Sample.env_miss 0 16 (Sample.table Sample.fetching_slot)
  = Ok (0, []) (Sample.table Sample.fetching_slot) /\
  ReadBulk Sample.env_miss 0 0 16 (Sample.table Sample.fetching_slot)
  = Ok (0, []) (Sample.table Sample.fetching_slot).
Proof.
  destruct (Read_and_ReadBulk_after_EnsureFetched Sample.env_miss 0 0 16
              (Sample.table Sample.fetching_slot) false
              (Sample.table Sample.fetching_slot) Sample.fetching_slot)
    as (_ & H & _).
  - lia.
  - lia.
  - lia.
  - vm_compute. reflexivity.
  - reflexivity.
  - destruct H as [HR HB]; [right; reflexivity |]. split; [apply HR | exact HB].
Defined.

Lemma ReadBulk_adds_the_bulk_base_witness :
  ReadBulk Sample.env_hit 0 100 16 (Sample.table Sample.fetched_slot)
  = Ok (3, Sample.payload)
       (set_history [EvReadBulk Sample.local_device 7 612 16]
          (Sample.table Sample.fetched_slot)).
Proof.
  destruct (ReadBulk_adds_the_bulk_base Sample.env_hit 0 100 16
              (Sample.table Sample.fetched_slot) Sample.fetched_slot Sample.local_device)
    as (off & Hoff & _ & HB).
  - lia.
  - reflexivity.
  - reflexivity.
  - reflexivity.
  - lia.
  - lia.
  - rewrite HB, Hoff. reflexivity.
Defined.

Lemma ReadBulk_sentinel_probe_witness :
  exists w2,
    ReadBulk Sample.env_miss 0 0 0xFFFFFFFD (Sample.table Sample.fetching_slot)
    = Ok (0, []) w2 /\
    history w2 = [EvSetRequestWeight 3%nat 1].
Proof.
  destruct (ReadBulk_sentinel_probe Sample.env_miss 0 0 0xFFFFFFFD
              (Sample.table Sample.fetching_slot) false
              (Sample.table Sample.fetching_slot))
    as (hd1 & w2 & Hl & HB & _ & _ & _ & Hh).
  - right. reflexivity.
  - lia.
  - vm_compute. reflexivity.
  - injection Hl as <-. exists w2. split; [exact HB | exact Hh].
Defined.

(** Read by the status and the request handle the slot has when the call is
    made, C2 fails.  A [NotFetched] slot that holds no request handle, with
    nothing in flight: the probe makes a request and adjusts its weight.  On
    a blocking device the probe of a [NotFetched] slot returns 2048. *)
Lemma ReadBulk_sentinel_probe_counterexample :
  (exists hd w2,
     m_handles (Sample.table (Scenario.waiting Sample.model_ytd)) !! 0%nat = Some hd /\
     status hd = StatusNotFetched /\
     getRequest hd = None /\
     inflight (Sample.table (Scenario.waiting Sample.model_ytd)) = [] /\
     ReadBulk Sample.env_miss 0 0 0xFFFFFFFE
       (Sample.table (Scenario.waiting Sample.model_ytd)) = Ok (0, []) w2 /\
     count is_fetch (history w2) = 1%nat /\
     count is_set_weight (history w2) = 1%nat) /\
  (exists hd w2,
     m_handles (Scenario.two_waiting true) !! 0%nat = Some hd /\
     status hd = StatusNotFetched /\
     ReadBulk Sample.env_miss 0 0 0xFFFFFFFD (Scenario.two_waiting true)
     = Ok (2048, []) w2).
Proof.
  split.
  - eexists _, _. split; [reflexivity |]. split; [reflexivity |].
    split; [reflexivity |]. split; [reflexivity |].
    split; [vm_compute; reflexivity |]. split; reflexivity.
  - eexists _, _. split; [reflexivity |]. split; [reflexivity |].
    vm_compute. reflexivity.
Qed.

(* ------------------------------------------------------------------------- *)
(** ** Stepping through a call on an explicit world *)

Lemma bind_assoc {A B C} (m : M A) (k1 : A -> M B) (k2 : B -> M C) w :
  bind (bind m k1) k2 w = bind m (fun a => bind (k1 a) k2) w.
Proof. unfold bind. destruct (m w); reflexivity. Qed.

Lemma bind_ret {A B} (a : A) (k : A -> M B) w : bind (ret a) k w = k a w.
Proof. reflexivity. Qed.

Lemma update_ins i f x hs b cp pp ds il c h :
  (i < length hs)%nat ->
  update i f (mkWorld (<[i := x]> hs) b cp pp ds il c h)
  = Ok tt (mkWorld (<[i := f x]> hs) b cp pp ds il c h).
Proof.
  intros Hi. unfold update. simpl. rewrite list_lookup_insert_eq by exact Hi.
  unfold set_handles. simpl. now rewrite list_insert_insert_eq.
Qed.

Lemma slot_ins i x hs b cp pp ds il c h :
  (i < length hs)%nat ->
  slot i (mkWorld (<[i := x]> hs) b cp pp ds il c h)
  = Ok x (mkWorld (<[i := x]> hs) b cp pp ds il c h).
Proof.
  intros Hi. unfold slot. simpl. now rewrite list_lookup_insert_eq by exact Hi.
Qed.

Ltac flat :=
  unfold set_handles, set_history, set_inflight, set_downloadedSet, set_cells;
  cbn [m_handles m_blocking m_cachePath m_pathPrefix g_downloadedSet inflight cells
       history].

(** One step of a call whose world is explicit and whose slot [i] is written
    [<[i := x]> hs]. *)
Ltac run :=
  rewrite ?bind_assoc;
  first
    [ erewrite (bind_Ok (update _ _)) by (apply update_ins; assumption)
    | erewrite (bind_Ok (slot _)) by (apply slot_ins; assumption)
    | rewrite bind_ret
    | erewrite bind_Ok by reflexivity ];
  flat.

Lemma first_empty_Some k hs i :
  first_empty k hs = Some i ->
  exists hd, hs !! (i - k)%nat = Some hd /\ status hd = StatusEmpty /\ (k <= i)%nat.
Proof.
  revert k. induction hs as [|hd hs IH]; intros k H; simpl in H; [discriminate |].
  destruct (bool_decide (status hd = StatusEmpty)) eqn:E.
  - injection H as <-. exists hd. rewrite Nat.sub_diag.
    apply bool_decide_eq_true_1 in E. auto.
  - apply IH in H as (hd' & Hl & Hs & Hk). exists hd'.
    replace (i - k)%nat with (S (i - S k)) by lia. simpl. repeat split; auto. lia.
Qed.

Lemma AllocateHandle_Ok w i hd :
  first_empty 0 (m_handles w) = Some i ->
  m_handles w !! i = Some hd ->
  AllocateHandle w
  = Ok i (set_handles (<[i := set_status StatusError hd]> (m_handles w)) w).
Proof.
  intros Hf Hl. unfold AllocateHandle, bind, get. rewrite Hf.
  now rewrite (update_Ok _ _ _ _ Hl).
Qed.

(* ------------------------------------------------------------------------- *)
(** ** The cache hit path *)

Section CacheHit.

Variable env : Env.

Lemma parent_Open_Ok d path ro w :
  parent_Open env d path ro w
  = Ok (dev_Open env (history w) d path ro)
       (set_history (EvOpen d path ro :: history w) w).
Proof. reflexivity. Qed.

(** C4: when the path resolves to an entry whose hash the cache holds and
    the local device opens the cached file, [Open] returns with the slot
    [Fetched] and has made one call, the open on the local device;
    [EnsureFetched] on that slot returns [true] and changes nothing, and
    the first [Read] only adds the read on the parent device: no request
    is made to the transport and none is in flight that was not before. *)
Theorem Open_on_cache_hit_is_fetched fileName w e ce d i :
  GetEntryForFileName env fileName w = Ok (Some e) w ->
  cache_GetEntryFor env (history w) (referenceHash e) = Some ce ->
  vfs_GetDevice env (GetLocalPath ce) = Some d ->
  dev_Open env (history w) d (GetLocalPath ce) true <> InvalidHandle ->
  first_empty 0 (m_handles w) = Some i ->
  exists w1 hd1,
    Open env fileName true w = Ok (Z.of_nat i) w1 /\
    m_handles w1 !! i = Some hd1 /\
    status hd1 = StatusFetched /\
    parentDevice hd1 = Some d /\
    parentHandle hd1 = dev_Open env (history w) d (GetLocalPath ce) true /\
    history w1 = EvOpen d (GetLocalPath ce) true :: history w /\
    inflight w1 = inflight w /\
    EnsureFetched env i w1 = Ok true w1 /\
    forall n,
      exists r w2,
        Read env (Z.of_nat i) n w1 = Ok r w2 /\
        r = dev_Read env (history w1) d (parentHandle hd1) n /\
        history w2 = EvRead d (parentHandle hd1) n :: history w1 /\
        inflight w2 = inflight w /\
        count is_fetch (history w2) = count is_fetch (history w).
Proof.
  intros He Hc Hd Ho Hf.
  destruct (first_empty_Some _ _ _ Hf) as (hd0 & Hl & Hs0 & _).
  rewrite Nat.sub_0_r in Hl.
  assert (Hopen : exists hd1 w1,
             Open env fileName true w = Ok (Z.of_nat i) w1 /\
             m_handles w1 !! i = Some hd1 /\
             status hd1 = StatusFetched /\
             parentDevice hd1 = Some d /\
             parentHandle hd1 = dev_Open env (history w) d (GetLocalPath ce) true /\
             history w1 = EvOpen d (GetLocalPath ce) true :: history w /\
             inflight w1 = inflight w).
  { unfold Open. simpl. unfold OpenInternal.
    rewrite (bind_Ok _ _ _ _ _ He).
    rewrite (bind_Ok _ _ _ _ _ (AllocateHandle_Ok _ _ _ Hf Hl)).
    assert (Hi : (i < length (m_handles w))%nat) by (eapply lookup_lt_Some, Hl).
    destruct w as [hs b cp pp ds il c h]. simpl in Hc, Ho, Hi. clear He Hf Hl.
    flat. unfold parent_Open, MarkFetched.
    do 4 run. rewrite Hc. do 2 run. simpl parentDevice. rewrite Hd.
    rewrite bool_decide_eq_false_2 by (intros Hn; now apply Hn).
    do 5 run. simpl parentHandle. rewrite (bool_decide_eq_true_2 _ Ho).
    unfold when. do 4 run. simpl status.
    rewrite bool_decide_eq_false_2 by (intros Hn; now apply Hn).
    run.
    eexists _, _. split; [reflexivity |]. flat.
    split; [now apply list_lookup_insert_eq |]. repeat split. }
  destruct Hopen as (hd1 & w1 & HO & Hl1 & Hst & Hpd & Hph & Hh & Hin).
  exists w1, hd1. repeat (split; [assumption |]).
  pose proof (EnsureFetched_fetched env _ _ _ Hl1 Hst) as HE.
  split; [exact HE |]. intros n.
  assert (Hl1' : m_handles w1 !! Z.to_nat (Z.of_nat i) = Some hd1)
    by now rewrite Nat2Z.id.
  unfold Read.
  rewrite (bind_Ok _ _ _ _ _ (index_of_Ok _ _ _ (Nat2Z.is_nonneg i) Hl1')).
  rewrite Nat2Z.id.
  rewrite (bind_Ok _ _ _ _ _ HE), (bind_Ok _ _ _ _ _ (slot_Ok _ _ _ Hl1)).
  rewrite Hst, Hpd. simpl.
  eexists _, _. split; [reflexivity |]. simpl.
  repeat split; auto. now rewrite Hh.
Qed.

End CacheHit.

Lemma Open_on_cache_hit_is_fetched_witness :
  exists w1,
    Open Sample.env_hit Sample.path true (new_device false "cache/" 4) = Ok 0 w1 /\
    status_at 0 w1 = Some StatusFetched /\
    history w1 = [EvOpen Sample.local_device "cache/ytd_c0ffee" true].
Proof.
  destruct (Open_on_cache_hit_is_fetched Sample.env_hit Sample.path
              (new_device false "cache/" 4) Sample.model_ytd
              (mkCacheEntry "cache/ytd_c0ffee" ∅) Sample.local_device 0)
    as (w1 & hd1 & HO & Hl & Hst & _ & _ & Hh & _).
  - vm_compute. reflexivity.
  - reflexivity.
  - reflexivity.
  - vm_compute. discriminate.
  - reflexivity.
  - exists w1. split; [exact HO |]. split; [| exact Hh].
    unfold status_at. rewrite Hl. simpl. now rewrite Hst.
Defined.

(* ------------------------------------------------------------------------- *)
(** ** What the completion callback does to its slot *)

Lemma update_missing {B} i f (k : unit -> M B) w :
  m_handles w !! i = None -> bind (update i f) k w = Fail BadIndex w.
Proof. intros H. unfold bind, update. now rewrite H. Qed.

Lemma slot_missing {B} i (k : HandleData -> M B) w :
  m_handles w !! i = None -> bind (slot i) k w = Fail BadIndex w.
Proof. intros H. unfold bind, slot. now rewrite H. Qed.

Section Callback.

Variable env : Env.

(** A transfer that succeeded on a file of nonzero length: the slot ends
    [Fetched] with the device of the downloaded file as its parent and, as
    its parent handle, whatever that device answered to the open. *)
Lemma completion_success cl errorData outSize w d hd :
  vfs_GetDevice env (cl_outFileName cl) = Some d ->
  dev_GetLengthPath env (history w) d (cl_outFileName cl) <> 0 ->
  m_handles w !! cl_slot cl = Some hd ->
  exists w' hd' hist,
    completion env cl true errorData outSize w = Ok tt w' /\
    m_handles w' = <[cl_slot cl := hd']> (m_handles w) /\
    status hd' = StatusFetched /\
    parentDevice hd' = Some d /\
    parentHandle hd'
    = (if bulkHandle hd
       then fst (dev_OpenBulk env hist d (cl_outFileName cl))
       else dev_Open env hist d (cl_outFileName cl) true) /\
    getRequest hd' = None.
Proof.
  intros Hd Hlen Hl.
  assert (Hi : (cl_slot cl < length (m_handles w))%nat) by (eapply lookup_lt_Some, Hl).
  destruct w as [hs b cp pp ds il c h]. simpl in Hlen, Hl, Hi.
  rewrite <- (list_insert_id hs _ _ Hl).
  unfold completion, AddEntryToCache, MarkFetched, parent_OpenBulk, parent_Open.
  cbv zeta. rewrite Hd.
  run. simpl negb. simpl orb. rewrite (proj2 (Z.eqb_neq _ _) Hlen).
  do 3 run.
  destruct (bool_decide (referenceHash (entry hd) ∈ ds)); unfold when;
    do 5 run; simpl parentDevice; cbv iota; simpl bulkHandle;
    destruct (bulkHandle hd); repeat run;
    (eexists _, _, _; split; [reflexivity |]; simpl;
     rewrite list_insert_insert_eq; split; [reflexivity |]; repeat split).
Qed.

(** A transfer that failed, or left an empty file: the slot ends [Error]
    with no request. *)
Lemma completion_failure cl result errorData outSize w hd :
  m_handles w !! cl_slot cl = Some hd ->
  result = false \/
  (exists d, vfs_GetDevice env (cl_outFileName cl) = Some d /\
             dev_GetLengthPath env (history w) d (cl_outFileName cl) = 0) ->
  exists w',
    completion env cl result errorData outSize w = Ok tt w' /\
    m_handles w'
    = <[cl_slot cl := set_getRequest None (set_status StatusError hd)]> (m_handles w).
Proof.
  intros Hl Hcase.
  assert (Hi : (cl_slot cl < length (m_handles w))%nat) by (eapply lookup_lt_Some, Hl).
  destruct w as [hs b cp pp ds il c h]. simpl in Hcase, Hl, Hi.
  rewrite <- (list_insert_id hs _ _ Hl).
  unfold completion. cbv zeta.
  destruct result.
  - destruct Hcase as [Hr | (d & Hd & Hlen)]; [discriminate |].
    rewrite Hd. run. rewrite Hlen. simpl negb; simpl orb; simpl Z.eqb. cbv iota.
    repeat run.
    eexists. split; [reflexivity |]. simpl. now rewrite list_insert_insert_eq.
  - run. simpl negb; simpl orb. cbv iota. repeat run.
    eexists. split; [reflexivity |]. simpl. now rewrite list_insert_insert_eq.
Qed.

(** Without its slot the callback changes no slot. *)
Lemma completion_missing cl result errorData outSize w :
  m_handles w !! cl_slot cl = None ->
  m_handles (world_of (completion env cl result errorData outSize w)) = m_handles w.
Proof.
  intros Hl. unfold completion, parent_GetLengthPath. cbv zeta.
  destruct result.
  - destruct (vfs_GetDevice env (cl_outFileName cl)) as [d|]; [| reflexivity].
    repeat run. simpl negb; simpl orb.
    destruct (_ =? 0)%Z; rewrite ?bind_assoc.
    + now rewrite update_missing.
    + now rewrite slot_missing.
  - repeat run. simpl negb; simpl orb. cbv iota.
    rewrite ?bind_assoc. now rewrite update_missing.
Qed.

End Callback.

(* ------------------------------------------------------------------------- *)
(** ** A fetched slot always has its parent device *)

Lemma guards_PreOrder : PreOrder guards.
Proof.
  split.
  - intros w H. exact H.
  - intros a b c Hab Hbc H. auto.
Qed.

Lemma parents_present_same w w' :
  m_handles w' = m_handles w -> guards w w'.
Proof. intros E H i hd. rewrite E. apply H. Qed.

Lemma parents_present_insert w w' i hd' :
  m_handles w' = <[i := hd']> (m_handles w) -> has_parent hd' -> guards w w'.
Proof.
  intros E Hhd H j hd. rewrite E.
  destruct (decide (i = j)) as [<-|Hne].
  - destruct (decide (i < length (m_handles w))%nat) as [Hlt|Hge].
    + rewrite list_lookup_insert_eq by exact Hlt. intros [= <-]. exact Hhd.
    + rewrite list_insert_ge by lia. apply H.
  - rewrite list_lookup_insert_ne by exact Hne. apply H.
Qed.

Lemma keeps_guards_update i f : keeps_parent f -> keeps guards (update i f).
Proof.
  intros Hf w. unfold update. destruct (m_handles w !! i) as [hd|] eqn:E; simpl.
  - intros H. eapply parents_present_insert; [reflexivity | | exact H].
    apply Hf. eapply H, E.
  - apply guards_PreOrder.
Qed.

Lemma keeps_parent_unrelated f :
  (forall hd, status (f hd) = status hd /\ parentDevice (f hd) = parentDevice hd) ->
  keeps_parent f.
Proof. intros H hd Hp Hs. destruct (H hd) as [E1 E2]. rewrite E2. apply Hp. congruence. Qed.

Lemma keeps_parent_unfetched s : s <> StatusFetched -> keeps_parent (set_status s).
Proof. intros Hs hd _ Hf. simpl in Hf. congruence. Qed.

Lemma new_device_parents_present blocking cachePath n :
  parents_present (new_device blocking cachePath n).
Proof.
  intros i hd H. simpl in H. apply lookup_replicate_1 in H as [-> _].
  intros Hs. discriminate.
Qed.

Section Guarding.

Variable env : Env.

Lemma keeps_guards_completion cl result errorData outSize :
  keeps guards (completion env cl result errorData outSize).
Proof.
  intros w.
  destruct (m_handles w !! cl_slot cl) as [hd|] eqn:Hl;
    [| apply parents_present_same, completion_missing, Hl].
  assert (Herr : has_parent (set_getRequest None (set_status StatusError hd)))
    by (intros Hs; discriminate).
  destruct result.
  - destruct (vfs_GetDevice env (cl_outFileName cl)) as [d|] eqn:Hd.
    + destruct (decide (dev_GetLengthPath env (history w) d (cl_outFileName cl) = 0))
        as [Hz|Hnz].
      * destruct (completion_failure env cl true errorData outSize w hd Hl)
          as (w' & -> & Hh); [right; eauto |].
        simpl. eapply parents_present_insert; eauto.
      * destruct (completion_success env cl errorData outSize w d hd Hd Hnz Hl)
          as (w' & hd' & hist & -> & Hh & Hs & Hp & _).
        simpl. eapply parents_present_insert; [exact Hh |].
        intros _. rewrite Hp. discriminate.
    + unfold completion. cbv zeta. rewrite Hd. apply guards_PreOrder.
  - destruct (completion_failure env cl false errorData outSize w hd Hl)
      as (w' & -> & Hh); [left; reflexivity |].
    simpl. eapply parents_present_insert; eauto.
Qed.

Lemma keeps_guards_EnsureFetched i : keeps guards (EnsureFetched env i).
Proof.
  apply (keeps_EnsureFetched_around env guards keeps_parent).
  - apply guards_PreOrder.
  - intros w j f hd Hf Hl H.
    eapply parents_present_insert; [reflexivity | | exact H]. apply Hf. eapply H, Hl.
  - intros a b. now apply keeps_parent_unrelated.
  - intros r. now apply keeps_parent_unrelated.
  - now apply keeps_parent_unfetched.
  - intros w l. now apply parents_present_same.
  - intros w e _. now apply parents_present_same.
  - apply keeps_guards_completion.
Qed.

End Guarding.

Section Opening.

Variable env : Env.

Lemma status_test_unfetched :
  bool_decide (StatusNotFetched <> StatusFetched) = true.
Proof. reflexivity. Qed.

Lemma status_test_fetched :
  bool_decide (StatusFetched <> StatusFetched) = false.
Proof. reflexivity. Qed.

(** [OpenInternal] on a path that resolves, with a free slot: the slot it
    returns ends [Fetched] with a parent device and a parent handle other
    than [InvalidHandle], or [NotFetched]. *)
Lemma OpenInternal_allocated fileName bulkPtr w e i :
  GetEntryForFileName env fileName w = Ok (Some e) w ->
  first_empty 0 (m_handles w) = Some i ->
  exists w1 hd1,
    OpenInternal env fileName bulkPtr w = Ok (Z.of_nat i) w1 /\
    m_handles w1 = <[i := hd1]> (m_handles w) /\
    entry hd1 = e /\
    bulkHandle hd1 = bool_decide (bulkPtr <> None) /\
    ((status hd1 = StatusFetched /\
      exists d, parentDevice hd1 = Some d /\ parentHandle hd1 <> InvalidHandle) \/
     status hd1 = StatusNotFetched).
Proof.
  intros He Hf.
  destruct (first_empty_Some _ _ _ Hf) as (hd0 & Hl & Hs0 & _).
  rewrite Nat.sub_0_r in Hl.
  unfold OpenInternal.
  rewrite (bind_Ok _ _ _ _ _ He).
  rewrite (bind_Ok _ _ _ _ _ (AllocateHandle_Ok _ _ _ Hf Hl)).
  assert (Hi : (i < length (m_handles w))%nat) by (eapply lookup_lt_Some, Hl).
  destruct w as [hs b cp pp ds il c h]. simpl in Hi. clear He Hf Hl.
  flat. unfold parent_Open, parent_OpenBulk, MarkFetched.
  do 4 run.
  assert (Htail : forall hd hist,
             status hd = StatusNotFetched ->
             exists w1,
               ((hd <- slot i ;;
                 when (bool_decide (status hd <> StatusFetched))
                   (w <- get ;;
                    when (bool_decide (referenceHash (entry hd) ∈ g_downloadedSet w))
                      (emit (EvTrace (TraceNotInCache (basename (entry hd)))))) ;;
                 ret (Z.of_nat i))
                  (mkWorld (<[i := hd]> hs) b cp pp ds il c hist)) = Ok (Z.of_nat i) w1 /\
               m_handles w1 = <[i := hd]> hs).
  { intros hd hist Hst. run. rewrite Hst, status_test_unfetched. unfold when.
    run. destruct (bool_decide (referenceHash (entry hd) ∈ ds)); repeat run;
      eexists; split; reflexivity. }
  destruct (cache_GetEntryFor env h (referenceHash e)) as [ce|].
  - do 2 run. simpl parentDevice.
    destruct (vfs_GetDevice env (GetLocalPath ce)) as [d|].
    + destruct (bool_decide (bulkPtr <> None)) eqn:Hb.
      * do 6 run. simpl parentHandle.
        destruct (decide ((dev_OpenBulk env h d (GetLocalPath ce)).1 = InvalidHandle))
          as [Hinv|Hval].
        -- rewrite (bool_decide_eq_false_2 _ (fun H => H Hinv)). unfold when. run.
           edestruct Htail as (w1 & -> & Hh); [| eexists _, _; split; [reflexivity |];
             split; [exact Hh |]]; simpl; auto.
        -- rewrite (bool_decide_eq_true_2 _ Hval). unfold when. do 4 run.
           simpl status. rewrite status_test_fetched. run.
           eexists _, _. split; [reflexivity |]. simpl.
           split; [reflexivity |]. repeat split; auto. left. split; eauto.
      * do 5 run. simpl parentHandle.
        destruct (decide (dev_Open env h d (GetLocalPath ce) true = InvalidHandle))
          as [Hinv|Hval].
        -- rewrite (bool_decide_eq_false_2 _ (fun H => H Hinv)). unfold when. run.
           edestruct Htail as (w1 & -> & Hh); [| eexists _, _; split; [reflexivity |];
             split; [exact Hh |]]; simpl; auto.
        -- rewrite (bool_decide_eq_true_2 _ Hval). unfold when. do 4 run.
           simpl status. rewrite status_test_fetched. run.
           eexists _, _. split; [reflexivity |]. simpl.
           split; [reflexivity |]. repeat split; auto. left. split; eauto.
    + run.
      edestruct Htail as (w1 & -> & Hh); [| eexists _, _; split; [reflexivity |];
        split; [exact Hh |]]; simpl; auto.
  - run.
    edestruct Htail as (w1 & -> & Hh); [| eexists _, _; split; [reflexivity |];
      split; [exact Hh |]]; simpl; auto.
Qed.

End Opening.

Section Invariant.

Variable env : Env.

Lemma GetEntryForFileName_outcome fileName w :
  (exists r, GetEntryForFileName env fileName w = Ok r w) \/
  (exists f, GetEntryForFileName env fileName w = Fail f w).
Proof.
  pose proof (GetEntryForFileName_world env fileName w) as H.
  destruct (GetEntryForFileName env fileName w) as [r w'|f w']; simpl in H; subst; eauto.
Qed.

Lemma keeps_guards_OpenInternal fileName bulkPtr :
  keeps guards (OpenInternal env fileName bulkPtr).
Proof.
  intros w.
  destruct (GetEntryForFileName_outcome fileName w) as [[[e|] He] | [f He]].
  - destruct (first_empty 0 (m_handles w)) as [i|] eqn:Hf.
    + destruct (OpenInternal_allocated env fileName bulkPtr w e i He Hf)
        as (w1 & hd1 & -> & Hh & _ & _ & Hst).
      simpl. eapply parents_present_insert; [exact Hh |].
      intros Hs. destruct Hst as [(_ & d & -> & _) | Hn]; [discriminate | congruence].
    + unfold OpenInternal. rewrite (bind_Ok _ _ _ _ _ He).
      unfold AllocateHandle, bind, get. rewrite Hf. apply guards_PreOrder.
  - unfold OpenInternal. rewrite (bind_Ok _ _ _ _ _ He). apply guards_PreOrder.
  - unfold OpenInternal. rewrite (bind_Fail _ _ _ _ _ He). apply guards_PreOrder.
Qed.

Ltac guarding :=
  pose proof guards_PreOrder;
  unfold emit;
  repeat first
    [ keeps_step
    | apply keeps_guards_EnsureFetched
    | apply keeps_guards_OpenInternal
    | apply keeps_guards_completion
    | apply keeps_modify; intros ?; apply parents_present_same; reflexivity
    | apply keeps_guards_update;
      first [ apply keeps_parent_unfetched; discriminate
            | apply keeps_parent_unrelated; intros ?; split; reflexivity ] ].

Lemma keeps_guards_Open fileName readOnly : keeps guards (Open env fileName readOnly).
Proof. unfold Open. guarding. Qed.

Lemma keeps_guards_OpenBulk fileName ptr : keeps guards (OpenBulk env fileName ptr).
Proof. unfold OpenBulk. guarding. Qed.

Lemma keeps_guards_Read handle n : keeps guards (Read env handle n).
Proof. unfold Read, parent_Read. guarding. Qed.

Lemma keeps_guards_ReadBulk handle ptr n : keeps guards (ReadBulk env handle ptr n).
Proof. unfold ReadBulk, parent_ReadBulk, SetRequestWeight. guarding. Qed.

Lemma keeps_guards_Seek handle offset seekType :
  keeps guards (Seek env handle offset seekType).
Proof. unfold Seek, parent_Seek. guarding. Qed.

Lemma keeps_guards_Close handle : keeps guards (Close env handle).
Proof. unfold Close, parent_Close. guarding. Qed.

Lemma keeps_guards_CloseBulk handle : keeps guards (CloseBulk env handle).
Proof. unfold CloseBulk, parent_CloseBulk. guarding. Qed.

Lemma keeps_guards_GetLength handle : keeps guards (GetLength env handle).
Proof. unfold GetLength, parent_GetLength. guarding. Qed.

Lemma keeps_guards_ExtensionCtl controlIdx data controlSize :
  keeps guards (ExtensionCtl env controlIdx data controlSize).
Proof. unfold ExtensionCtl, GetEntryForFileName. guarding. Qed.

Lemma keeps_guards_progress r info : keeps guards (transport_progress r info).
Proof. unfold transport_progress, progressCallback. guarding. Qed.

Lemma keeps_guards_complete r c : keeps guards (transport_complete env r c).
Proof. unfold transport_complete, deliver, progressCallback. guarding. Qed.

(** In every world the device can be in, a slot marked [Fetched] has a
    parent device: [Read], [ReadBulk], [Seek], [Close], [CloseBulk] and
    [GetLength] never call through a null reference. *)
Lemma reachable_parents_present w : reachable env w -> parents_present w.
Proof.
  induction 1.
  - apply new_device_parents_present.
  - exact IHreachable.
  - now apply keeps_guards_Open.
  - now apply keeps_guards_OpenBulk.
  - now apply keeps_guards_Read.
  - now apply keeps_guards_ReadBulk.
  - now apply keeps_guards_Seek.
  - now apply keeps_guards_Close.
  - now apply keeps_guards_CloseBulk.
  - now apply keeps_guards_GetLength.
  - now apply keeps_guards_ExtensionCtl.
  - now apply keeps_guards_progress.
  - now apply keeps_guards_complete.
Qed.

End Invariant.

(* ------------------------------------------------------------------------- *)
(** ** When EnsureFetched returns *)

Lemma find_last_of_lt c s p :
  Str.find_last_of c s = Some p -> (p < String.length s)%nat.
Proof.
  revert p. induction s as [|a s IH]; intros p H; simpl in H; [discriminate |].
  destruct (Str.find_last_of c s) as [q|].
  - injection H as <-. simpl. specialize (IH q eq_refl). lia.
  - destruct (Ascii.eqb a c); [| discriminate]. injection H as <-. simpl. lia.
Qed.

(** The extension of a base name is always there to take: [substr] is asked
    for a position that is at most the length. *)
Lemma extension_substr s :
  exists ext,
    Str.substr s (Word.wrap64 (Str.pos_of (Str.find_last_of "." s) + 1)) npos = Some ext.
Proof.
  unfold Str.substr.
  assert (H : Word.wrap64 (Str.pos_of (Str.find_last_of "." s) + 1) <= Str.size s).
  { unfold Str.size, Str.pos_of, Word.wrap64.
    destruct (Str.find_last_of "." s) as [p|] eqn:E.
    - apply find_last_of_lt in E.
      assert (Hpos : 0 < Word.modulus) by reflexivity.
      pose proof (Z.mod_le (Z.of_nat p + 1) Word.modulus ltac:(lia) Hpos) as Hm.
      lia.
    - replace (npos + 1) with Word.modulus by reflexivity.
      rewrite Z.mod_same by discriminate. lia. }
  destruct (Str.size s <? _)%Z eqn:E; [apply Z.ltb_lt in E; lia | eauto].
Qed.

Section Returning.

Variable env : Env.

(** On a non-blocking device [EnsureFetched] returns for a slot that is
    [Fetched] or [Fetching], and for any other slot whose base name has a
    dot. *)
Lemma EnsureFetched_returns i w hd :
  m_blocking w = false ->
  m_handles w !! i = Some hd ->
  status hd = StatusFetched \/ status hd = StatusFetching \/
  GetWeightForFileName (basename (entry hd)) <> None ->
  exists b w1, EnsureFetched env i w = Ok b w1.
Proof.
  intros Hb Hl Hcase.
  assert (Hi : (i < length (m_handles w))%nat) by (eapply lookup_lt_Some, Hl).
  destruct w as [hs b cp pp ds il c h]. simpl in Hb, Hl, Hi. subst b.
  rewrite <- (list_insert_id hs _ _ Hl).
  unfold EnsureFetched. run.
  destruct (decide (status hd = StatusFetched)) as [Hf|Hf].
  { rewrite (bool_decide_eq_true_2 _ Hf). eauto. }
  rewrite (bool_decide_eq_false_2 _ Hf).
  destruct (decide (status hd = StatusFetching)) as [Hg|Hg].
  { rewrite (bool_decide_eq_true_2 _ Hg). eauto. }
  rewrite (bool_decide_eq_false_2 _ Hg).
  destruct Hcase as [? | [? | Hw]]; try contradiction.
  destruct (GetWeightForFileName (basename (entry hd))) as [weight|] eqn:Ew;
    [| contradiction].
  destruct (extension_substr (basename (entry hd))) as [ext Hext].
  do 3 run. simpl entry. rewrite Hext. unfold throwing at 1. do 3 run.
  rewrite Ew. unfold throwing at 1. unfold DoFileGetRequest. repeat run.
  unfold when. repeat run. eauto.
Qed.

(** For a base name without a dot [GetWeightForFileName] throws, after the
    slot has been set to [Fetching] and before any request is made. *)
Lemma EnsureFetched_throws i w hd :
  m_handles w !! i = Some hd ->
  status hd <> StatusFetched ->
  status hd <> StatusFetching ->
  GetWeightForFileName (basename (entry hd)) = None ->
  exists w1,
    EnsureFetched env i w = Fail OutOfRange w1 /\
    status_at i w1 = Some StatusFetching /\
    inflight w1 = inflight w.
Proof.
  intros Hl Hf Hg Ew.
  assert (Hi : (i < length (m_handles w))%nat) by (eapply lookup_lt_Some, Hl).
  destruct w as [hs b cp pp ds il c h]. simpl in Hl, Hi.
  rewrite <- (list_insert_id hs _ _ Hl).
  unfold EnsureFetched. run.
  rewrite (bool_decide_eq_false_2 _ Hf), (bool_decide_eq_false_2 _ Hg).
  destruct (extension_substr (basename (entry hd))) as [ext Hext].
  do 3 run. simpl entry. rewrite Hext. unfold throwing at 1. do 3 run.
  rewrite Ew. unfold throwing at 1.
  eexists. split; [reflexivity |]. unfold status_at. simpl.
  rewrite list_lookup_insert_eq by exact Hi. auto.
Qed.

End Returning.

(* ------------------------------------------------------------------------- *)
(** ** The first read of a slot that is not being fetched *)

Section Dispatching.

Variable env : Env.

(** On a non-blocking device, [EnsureFetched] on a slot that is neither
    [Fetched] nor [Fetching] (so also on one in [Error]) hands one request
    to the transport, leaves the slot [Fetching] with that request's handle
    and returns [false]. *)
Lemma EnsureFetched_dispatches i w hd weight :
  m_blocking w = false ->
  m_handles w !! i = Some hd ->
  status hd <> StatusFetched ->
  status hd <> StatusFetching ->
  GetWeightForFileName (basename (entry hd)) = Some weight ->
  exists w1 r ev,
    EnsureFetched env i w = Ok false w1 /\
    m_handles w1
    = <[i := set_getRequest (Some r) (set_status StatusFetching hd)]> (m_handles w) /\
    history w1
    = ev :: EvTrace (TraceDownloading (basename (entry hd)) (referenceHash (entry hd))
                       (remoteUrl (entry hd))) :: history w /\
    is_fetch ev = true /\
    inflight w1 = (inflight w ++ [mkClosure r i
                     (m_cachePath w +:+
                      default "" (Str.substr (basename (entry hd))
                        (Word.wrap64 (Str.pos_of (Str.find_last_of "." (basename (entry hd))) + 1))
                        npos) +:+ "_" +:+ referenceHash (entry hd))])%list.
Proof.
  intros Hb Hl Hf Hg Ew.
  assert (Hi : (i < length (m_handles w))%nat) by (eapply lookup_lt_Some, Hl).
  destruct w as [hs b cp pp ds il c h]. simpl in Hb, Hl, Hi. subst b.
  rewrite <- (list_insert_id hs _ _ Hl).
  unfold EnsureFetched. run.
  rewrite (bool_decide_eq_false_2 _ Hf), (bool_decide_eq_false_2 _ Hg).
  destruct (extension_substr (basename (entry hd))) as [ext Hext].
  do 3 run. simpl entry. rewrite Hext. unfold throwing at 1. do 3 run.
  rewrite Ew. unfold throwing at 1. unfold DoFileGetRequest. repeat run.
  unfold when. repeat run. simpl status.
  eexists _, _, _. split; [reflexivity |]. simpl.
  rewrite list_insert_insert_eq. repeat split.
Qed.

(** A sentinel [ReadBulk] on such a slot therefore starts the download
    itself, adjusts the weight of the request it has just made, and returns
    0. *)
Lemma ReadBulk_sentinel_starts_fetch handle ptr size w hd weight :
  size = 0xFFFFFFFE \/ size = 0xFFFFFFFD ->
  0 <= handle ->
  m_blocking w = false ->
  m_handles w !! Z.to_nat handle = Some hd ->
  status hd <> StatusFetched ->
  status hd <> StatusFetching ->
  GetWeightForFileName (basename (entry hd)) = Some weight ->
  exists w2,
    ReadBulk env handle ptr size w = Ok (0, []) w2 /\
    count is_fetch (history w2) = S (count is_fetch (history w)) /\
    count is_set_weight (history w2) = S (count is_set_weight (history w)) /\
    status_at (Z.to_nat handle) w2 = Some StatusFetching.
Proof.
  intros Hsz H0 Hb Hl Hf Hg Ew.
  destruct (EnsureFetched_dispatches _ _ _ _ Hb Hl Hf Hg Ew)
    as (w1 & r & ev & HE & Hh & Hhist & Hev & _).
  assert (Hi : (Z.to_nat handle < length (m_handles w))%nat)
    by (eapply lookup_lt_Some, Hl).
  assert (Hl1 : m_handles w1 !! Z.to_nat handle
                = Some (set_getRequest (Some r) (set_status StatusFetching hd)))
    by (rewrite Hh; now apply list_lookup_insert_eq).
  unfold ReadBulk.
  rewrite (bind_Ok _ _ _ _ _ (index_of_Ok _ _ _ H0 Hl)).
  rewrite (bind_Ok _ _ _ _ _ HE).
  rewrite (bind_Ok _ _ _ _ _ (slot_Ok _ _ _ Hl1)).
  assert (Hs : (bool_decide (size = 0xFFFFFFFE) || bool_decide (size = 0xFFFFFFFD))%bool
               = true) by (destruct Hsz as [-> | ->]; reflexivity).
  rewrite Hs. simpl getRequest. cbv iota.
  unfold SetRequestWeight.
  erewrite bind_Ok by reflexivity.
  set (w2 := set_history _ w1).
  assert (Hl2 : m_handles w2 !! Z.to_nat handle
                = Some (set_getRequest (Some r) (set_status StatusFetching hd)))
    by exact Hl1.
  rewrite (bind_Ok _ _ _ _ _ (slot_Ok _ _ _ Hl2)).
  exists w2. split; [reflexivity |]. unfold status_at. rewrite Hl2.
  subst w2. simpl. rewrite Hhist. simpl. rewrite Hev.
  destruct ev; try discriminate. simpl. auto.
Qed.

(** A [Read] on a slot in [Error] starts a new download: on a non-blocking
    device it returns 0, not the error value. *)
Lemma Read_retries_after_error handle n w hd weight :
  0 <= handle ->
  m_blocking w = false ->
  m_handles w !! Z.to_nat handle = Some hd ->
  status hd = StatusError ->
  GetWeightForFileName (basename (entry hd)) = Some weight ->
  exists w1,
    Read env handle n w = Ok (0, []) w1 /\
    count is_fetch (history w1) = S (count is_fetch (history w)) /\
    status_at (Z.to_nat handle) w1 = Some StatusFetching.
Proof.
  intros H0 Hb Hl Hs Ew.
  destruct (EnsureFetched_dispatches (Z.to_nat handle) w hd weight Hb Hl)
    as (w1 & r & ev & HE & Hh & Hhist & Hev & _); try congruence.
  assert (Hi : (Z.to_nat handle < length (m_handles w))%nat)
    by (eapply lookup_lt_Some, Hl).
  assert (Hl1 : m_handles w1 !! Z.to_nat handle
                = Some (set_getRequest (Some r) (set_status StatusFetching hd)))
    by (rewrite Hh; now apply list_lookup_insert_eq).
  rewrite (Read_continues env handle n w false w1 H0 HE).
  rewrite (bind_Ok _ _ _ _ _ (slot_Ok _ _ _ Hl1)). simpl.
  exists w1. split; [reflexivity |]. unfold status_at. rewrite Hl1, Hhist. simpl.
  rewrite Hev. auto.
Qed.

End Dispatching.

(** On a blocking device the same probe waits for the transfer and answers
    for the slot as the transfer left it: here 2048, for a slot that was
    [NotFetched] when the probe was issued. *)
Example ReadBulk_sentinel_blocks_until_fetched :
  exists w1 w2,
    OpenBulk Sample.env_miss Sample.path (Some 0%nat) (new_device true "cache/" 4)
    = Ok 0 w1 /\
    status_at 0 w1 = Some StatusNotFetched /\
    ReadBulk Sample.env_miss 0 0 0xFFFFFFFE w1 = Ok (2048, []) w2 /\
    count is_fetch (history w2) = 1%nat /\
    count is_set_weight (history w2) = 0%nat /\
    count is_parent_read (history w2) = 0%nat.
Proof.
  eexists _, _. split; [vm_compute; reflexivity |].
  split; [vm_compute; reflexivity |].
  split; [vm_compute; reflexivity |]. repeat split.
Qed.

(** On a blocking device a [Read] whose transfer fails returns the error
    value, with the slot in [Error]. *)
Example Read_returns_the_error_value :
  exists w1 w2,
    Open Sample.env_offline Sample.path true (new_device true "cache/" 4) = Ok 0 w1 /\
    Read Sample.env_offline 0 16 w1 = Ok (Word.minus_one, []) w2 /\
    status_at 0 w2 = Some StatusError.
Proof.
  eexists _, _. split; [vm_compute; reflexivity |].
  split; [vm_compute; reflexivity |]. reflexivity.
Qed.

(* ------------------------------------------------------------------------- *)
(** ** The completion callback and the parent handle *)

(** C1: the handle invariant asks that a [Fetched] slot has a parent device
    and a parent handle other than [InvalidHandle].  [OpenInternal] sets
    [Fetched] only after it has checked the handle; the completion callback
    sets it whatever the open returned.  Here a transfer succeeds, the local
    device has the file's length but fails to open it: run directly on a
    [Fetching] slot, and again through [Open] and a blocking [Read], the
    callback leaves the slot [Fetched] with [InvalidHandle] as its parent
    handle, and the [Read] that follows is made on that handle. *)
Theorem completion_marks_fetched_when_open_fails :
  (exists w' hd,
     completion Sample.env_open_fails (mkClosure 3%nat 0%nat "cache/ytd_c0ffee") true "" 4096
       (Sample.table Sample.fetching_slot) = Ok tt w' /\
     m_handles w' !! 0%nat = Some hd /\
     status hd = StatusFetched /\
     parentHandle hd = InvalidHandle) /\
  (exists w1 r w2 hd,
     Open Sample.env_open_fails Sample.path true (new_device true "cache/" 4) = Ok 0 w1 /\
     status_at 0%nat w1 = Some StatusNotFetched /\
     Read Sample.env_open_fails 0 16 w1 = Ok r w2 /\
     m_handles w2 !! 0%nat = Some hd /\
     status hd = StatusFetched /\
     parentDevice hd = Some Sample.local_device /\
     parentHandle hd = InvalidHandle /\
     head (history w2) = Some (EvRead Sample.local_device InvalidHandle 16)).
Proof.
  split.
  - eexists _, _. split; [vm_compute; reflexivity |].
    split; [vm_compute; reflexivity |]. split; reflexivity.
  - eexists _, _, _, _. split; [vm_compute; reflexivity |].
    split; [vm_compute; reflexivity |].
    split; [vm_compute; reflexivity |].
    split; [vm_compute; reflexivity |]. repeat split.
Qed.

(* ------------------------------------------------------------------------- *)
(** * Further properties of the device *)

(** ** Strings *)

Lemma append_nil s : "" +:+ s = s.
Proof. reflexivity. Qed.

Lemma append_cons x a s : String x a +:+ s = String x (a +:+ s).
Proof. reflexivity. Qed.

Ltac by_chars a :=
  induction a as [|?x a IH]; intros; rewrite ?append_nil, ?append_cons; simpl.

Lemma length_app a s : String.length (a +:+ s) = (String.length a + String.length s)%nat.
Proof. by_chars a; [reflexivity | now rewrite IH]. Qed.

Lemma append_assoc a b c : (a +:+ b) +:+ c = a +:+ b +:+ c.
Proof. by_chars a; [reflexivity | now rewrite IH]. Qed.

Lemma substring_all s : String.substring 0 (String.length s) s = s.
Proof. induction s as [|c s IH]; simpl; [reflexivity | now rewrite IH]. Qed.

Lemma substring_skip a n s :
  String.substring (String.length a) n (a +:+ s) = String.substring 0 n s.
Proof. by_chars a; [reflexivity | exact IH]. Qed.

Lemma substring_take a s : String.substring 0 (String.length a) (a +:+ s) = a.
Proof. by_chars a; [now destruct s | now rewrite IH]. Qed.

Lemma find_first_of_app c a s :
  Str.find_first_of c a = None ->
  Str.find_first_of c (a +:+ String c s) = Some (String.length a).
Proof.
  by_chars a.
  - now rewrite Ascii.eqb_refl.
  - simpl in H. destruct (Ascii.eqb x c); [discriminate |].
    destruct (Str.find_first_of c a); [discriminate |]. now rewrite IH.
Qed.

(** [substr] from the end of a prefix to the end of the string. *)
Lemma substr_drop a s :
  Str.size s <= npos -> Str.substr (a +:+ s) (Str.size a) npos = Some s.
Proof.
  intros Hs. unfold Str.substr, Str.size in *. rewrite length_app.
  destruct (_ <? _)%Z eqn:E; [apply Z.ltb_lt in E; lia |].
  rewrite Nat2Z.id. f_equal.
  replace (Z.to_nat _) with (String.length s) by lia.
  now rewrite substring_skip, substring_all.
Qed.

(** [substr] of the first characters. *)
Lemma substr_take a s : Str.substr (a +:+ s) 0 (Str.size a) = Some a.
Proof.
  unfold Str.substr, Str.size. rewrite length_app.
  destruct (_ <? _)%Z eqn:E; [apply Z.ltb_lt in E; lia |].
  f_equal. replace (Z.to_nat (Z.min _ _)) with (String.length a) by lia.
  apply substring_take.
Qed.

Lemma to_int_small z : 0 <= z < 2 ^ 31 -> Word.to_int z = z.
Proof. intros H. unfold Word.to_int. rewrite Z.mod_small; lia. Qed.

Lemma wrap64_small z : 0 <= z < Word.modulus -> Word.wrap64 z = z.
Proof. intros H. unfold Word.wrap64. now apply Z.mod_small. Qed.

Section Paths.

Variable env : Env.

(** X1: a file name is split by position: the first [m_pathPrefix.length()]
    characters are dropped whatever they are, the rest up to its first slash
    names the resource and what follows that slash names the item; the
    answer is the manifest's entry for the two, and the world is unchanged. *)
Theorem GetEntryForFileName_splits_at_first_slash w pre res item :
  String.length pre = String.length (m_pathPrefix w) ->
  Str.find_first_of "/" res = None ->
  Str.size (res +:+ "/" +:+ item) < 2 ^ 31 ->
  GetEntryForFileName env (pre +:+ res +:+ "/" +:+ item) w
  = Ok (match resources env !! res with
        | Some entryList => entryList !! item
        | None => None
        end) w.
Proof.
  intros Hpre Hres Hlen.
  set (rel := res +:+ "/" +:+ item) in *.
  assert (Hsz : Str.size rel
                = Z.of_nat (String.length res) + 1 + Z.of_nat (String.length item)).
  { unfold Str.size, rel. rewrite !length_app. simpl. lia. }
  assert (Hpos : Word.to_int (Str.pos_of (Str.find_first_of "/" rel)) = Str.size res).
  { unfold rel. change ("/" +:+ item) with (String "/" item).
    rewrite (find_first_of_app _ _ _ Hres). unfold Str.pos_of, Str.size.
    apply to_int_small. unfold Str.size in Hsz, Hlen. lia. }
  assert (H1 : Str.substr rel 0
                 (Word.wrap64 (Word.to_int (Str.pos_of (Str.find_first_of "/" rel))))
               = Some res).
  { rewrite Hpos, wrap64_small by (unfold Str.size, Word.modulus in *; lia).
    apply substr_take. }
  assert (H2 : Str.substr rel
                 (Word.wrap64 (Word.to_int (Str.pos_of (Str.find_first_of "/" rel)) + 1))
                 npos
               = Some item).
  { rewrite Hpos, wrap64_small by (unfold Str.size, Word.modulus in *; lia).
    replace (Str.size res + 1) with (Str.size (res +:+ "/"))
      by (unfold Str.size; rewrite length_app; simpl; lia).
    unfold rel. rewrite <- (append_assoc res "/" item).
    apply substr_drop. unfold Str.size, npos, Word.minus_one, Word.modulus in *. lia. }
  unfold GetEntryForFileName.
  rewrite (bind_Ok get _ w w w eq_refl).
  replace (Str.size (m_pathPrefix w)) with (Str.size pre)
    by (unfold Str.size; now rewrite Hpre).
  rewrite substr_drop by (unfold Str.size, npos, Word.minus_one, Word.modulus in *; lia).
  unfold throwing at 1. rewrite bind_ret, H1.
  unfold throwing at 1. rewrite bind_ret, H2.
  unfold throwing, bind, ret. destruct (resources env !! res); reflexivity.
Qed.

(** X2: a name without any slash after the prefix is taken whole, both as
    the resource name and as the item name. *)
Theorem GetEntryForFileName_without_slash w pre name :
  String.length pre = String.length (m_pathPrefix w) ->
  Str.find_first_of "/" name = None ->
  Str.size name < Word.modulus ->
  GetEntryForFileName env (pre +:+ name) w
  = Ok (match resources env !! name with
        | Some entryList => entryList !! name
        | None => None
        end) w.
Proof.
  intros Hpre Hname Hlen.
  assert (H1 : Str.substr name 0
                 (Word.wrap64 (Word.to_int (Str.pos_of (Str.find_first_of "/" name))))
               = Some name).
  { rewrite Hname. change (Word.wrap64 _) with npos.
    apply (substr_drop "" name). unfold npos, Word.minus_one. lia. }
  assert (H2 : Str.substr name
                 (Word.wrap64 (Word.to_int (Str.pos_of (Str.find_first_of "/" name)) + 1))
                 npos
               = Some name).
  { rewrite Hname. change (Word.wrap64 _) with (Str.size "").
    apply (substr_drop "" name). unfold npos, Word.minus_one. lia. }
  unfold GetEntryForFileName.
  rewrite (bind_Ok get _ w w w eq_refl).
  replace (Str.size (m_pathPrefix w)) with (Str.size pre)
    by (unfold Str.size; now rewrite Hpre).
  rewrite substr_drop by (unfold npos, Word.minus_one; lia).
  unfold throwing at 1. rewrite bind_ret, H1.
  unfold throwing at 1. rewrite bind_ret, H2.
  unfold throwing, bind, ret. destruct (resources env !! name); reflexivity.
Qed.

(** X3: a file name shorter than the prefix makes [substr] throw
    [std::out_of_range]; the exception escapes [Open], [OpenBulk], both path
    queries and the page-flags query, and no slot is touched. *)
Theorem short_file_name_throws w name a data controlSize :
  (String.length name < String.length (m_pathPrefix w))%nat ->
  Open env name true w = Fail OutOfRange w /\
  OpenBulk env name (Some a) w = Fail OutOfRange (set_cells (<[a := 0]> (cells w)) w) /\
  GetLengthOfFile env name w = Fail OutOfRange w /\
  GetAttributes env name w = Fail OutOfRange w /\
  (fileName data = name ->
   ExtensionCtl env VFS_GET_RAGE_PAGE_FLAGS data controlSize w = Fail OutOfRange w).
Proof.
  intros Hlen.
  assert (H : forall c, GetEntryForFileName env name (set_cells c w)
                        = Fail OutOfRange (set_cells c w)).
  { intros c. unfold GetEntryForFileName, bind, get, throwing, fail, Str.substr, Str.size.
    simpl m_pathPrefix.
    destruct (_ <? _)%Z eqn:E; [reflexivity | apply Z.ltb_ge in E; simpl in E; lia]. }
  assert (H0 : GetEntryForFileName env name w = Fail OutOfRange w).
  { specialize (H (cells w)). now destruct w. }
  repeat split.
  - unfold Open. simpl. unfold OpenInternal. now rewrite (bind_Fail _ _ _ _ _ H0).
  - unfold OpenBulk. unfold bind at 1. simpl. unfold OpenInternal.
    now rewrite (bind_Fail _ _ _ _ _ (H _)).
  - unfold GetLengthOfFile. now rewrite (bind_Fail _ _ _ _ _ H0).
  - unfold GetAttributes. now rewrite (bind_Fail _ _ _ _ _ H0).
  - intros Hn. unfold ExtensionCtl. rewrite bool_decide_eq_true_2 by reflexivity.
    rewrite Hn. now rewrite (bind_Fail _ _ _ _ _ H0).
Qed.

End Paths.

(* ------------------------------------------------------------------------- *)
(** ** The handle table *)

Lemma first_empty_before k hs i :
  first_empty k hs = Some i ->
  forall j hd, (j < i - k)%nat -> hs !! j = Some hd -> status hd <> StatusEmpty.
Proof.
  revert k. induction hs as [|hd0 hs IH]; intros k H j hd Hj Hl; simpl in H;
    [discriminate |].
  destruct (bool_decide (status hd0 = StatusEmpty)) eqn:E.
  - injection H as <-. lia.
  - destruct j as [|j]; simpl in Hl.
    + injection Hl as <-. now apply bool_decide_eq_false_1 in E.
    + apply (IH (S k) H j hd); [| exact Hl].
      apply first_empty_Some in H as (_ & _ & _ & Hk). lia.
Qed.

Lemma first_empty_None k hs :
  first_empty k hs = None -> forall hd, hd ∈ hs -> status hd <> StatusEmpty.
Proof.
  revert k. induction hs as [|hd0 hs IH]; intros k H hd Hin; simpl in H.
  - now apply elem_of_nil in Hin.
  - destruct (bool_decide (status hd0 = StatusEmpty)) eqn:E; [discriminate |].
    apply elem_of_cons in Hin as [-> | Hin].
    + now apply bool_decide_eq_false_1 in E.
    + eapply IH; eauto.
Qed.

Lemma first_empty_found k hs n hd :
  hs !! n = Some hd ->
  status hd = StatusEmpty ->
  (forall j hd', (j < n)%nat -> hs !! j = Some hd' -> status hd' <> StatusEmpty) ->
  first_empty k hs = Some (k + n)%nat.
Proof.
  revert k n. induction hs as [|hd0 hs IH]; intros k n Hl Hs Hb; [discriminate |].
  simpl. destruct n as [|n]; simpl in Hl.
  - injection Hl as ->. rewrite (bool_decide_eq_true_2 _ Hs). f_equal. lia.
  - rewrite bool_decide_eq_false_2 by (apply (Hb 0%nat hd0); [lia | reflexivity]).
    rewrite (IH (S k) n Hl Hs); [f_equal; lia |].
    intros j hd' Hj Hl'. apply (Hb (S j) hd'); [lia | exact Hl'].
Qed.

(** X4: [AllocateHandle] takes the slot of lowest index whose status is
    [Empty], marks it [Error] and changes nothing else; when no slot is
    [Empty] it ends in [FatalError] with the table as it was. *)
Theorem AllocateHandle_takes_the_lowest_empty_slot w :
  match AllocateHandle w with
  | Ok i w' =>
      exists hd,
        m_handles w !! i = Some hd /\
        status hd = StatusEmpty /\
        (forall j hd', (j < i)%nat -> m_handles w !! j = Some hd' ->
                       status hd' <> StatusEmpty) /\
        w' = set_handles (<[i := set_status StatusError hd]> (m_handles w)) w
  | Fail f w' =>
      f = Fatal /\ w' = w /\
      forall hd, hd ∈ m_handles w -> status hd <> StatusEmpty
  end.
Proof.
  unfold AllocateHandle, bind, get.
  destruct (first_empty 0 (m_handles w)) as [i|] eqn:Hf.
  - destruct (first_empty_Some _ _ _ Hf) as (hd & Hl & Hs & _).
    rewrite Nat.sub_0_r in Hl. rewrite (update_Ok _ _ _ _ Hl). simpl.
    exists hd. repeat split; auto.
    intros j hd' Hj. apply (first_empty_before _ _ _ Hf). lia.
  - simpl. repeat split. now apply (first_empty_None 0).
Qed.

Section Handles.

Variable env : Env.

Lemma index_of_inv handle w i w' :
  index_of handle w = Ok i w' ->
  w' = w /\ i = Z.to_nat handle /\ 0 <= handle /\ (i < length (m_handles w))%nat.
Proof.
  unfold index_of. case_decide; [| discriminate].
  intros [= <- <-]. repeat split; lia.
Qed.

Lemma slot_inv i w hd w' :
  slot i w = Ok hd w' -> w' = w /\ m_handles w !! i = Some hd.
Proof.
  unfold slot. destruct (m_handles w !! i); [| discriminate].
  intros [= <- <-]. auto.
Qed.

Lemma update_inv i f w u w' :
  update i f w = Ok u w' ->
  exists hd, m_handles w !! i = Some hd /\
             w' = set_handles (<[i := f hd]> (m_handles w)) w.
Proof.
  unfold update. destruct (m_handles w !! i) as [hd|]; [| discriminate].
  intros [= <-]. eauto.
Qed.

(** A successful [OpenInternal]: the handle is the index [AllocateHandle]
    chose, and only that slot has changed. *)
Lemma OpenInternal_inv fileName bulkPtr w h w1 :
  OpenInternal env fileName bulkPtr w = Ok h w1 ->
  h <> InvalidHandle ->
  exists i e hd1,
    h = Z.of_nat i /\
    GetEntryForFileName env fileName w = Ok (Some e) w /\
    first_empty 0 (m_handles w) = Some i /\
    m_handles w1 = <[i := hd1]> (m_handles w) /\
    entry hd1 = e /\
    (status hd1 = StatusFetched \/ status hd1 = StatusNotFetched).
Proof.
  intros H Hh.
  destruct (GetEntryForFileName_outcome env fileName w) as [[[e|] He] | [f He]].
  - destruct (first_empty 0 (m_handles w)) as [i|] eqn:Hf.
    + destruct (OpenInternal_allocated env fileName bulkPtr w e i He Hf)
        as (w1' & hd1 & H' & Hm & He1 & _ & Hst).
      rewrite H' in H. injection H as <- <-.
      exists i, e, hd1. repeat split; auto. tauto.
    + unfold OpenInternal in H. rewrite (bind_Ok _ _ _ _ _ He) in H.
      unfold AllocateHandle, bind, get in H. rewrite Hf in H. discriminate.
  - unfold OpenInternal in H. rewrite (bind_Ok _ _ _ _ _ He) in H.
    injection H as <- _. now destruct Hh.
  - unfold OpenInternal in H. rewrite (bind_Fail _ _ _ _ _ He) in H. discriminate.
Qed.

Lemma Open_inv fileName readOnly w h w1 :
  Open env fileName readOnly w = Ok h w1 ->
  h <> InvalidHandle ->
  OpenInternal env fileName None w = Ok h w1.
Proof.
  unfold Open. destruct readOnly; simpl; [auto |].
  intros [= <- _] Hh. now destruct Hh.
Qed.

(** What [Close] and [CloseBulk] leave when they return. *)
Lemma Close_inv handle w r w' :
  Close env handle w = Ok r w' \/ CloseBulk env handle w = Ok r w' ->
  exists hd,
    0 <= handle /\
    m_handles w !! Z.to_nat handle = Some hd /\
    m_handles w' = <[Z.to_nat handle := set_status StatusEmpty hd]> (m_handles w) /\
    inflight w' = inflight w.
Proof.
  intros H.
  assert (Hgen : exists close : DeviceId -> Z -> M bool,
             (forall d p w0 b w1, close d p w0 = Ok b w1 ->
                                  m_handles w1 = m_handles w0 /\
                                  inflight w1 = inflight w0) /\
             (i <- index_of handle ;;
              hd <- slot i ;;
              retval <- (if bool_decide (status hd = StatusFetched)
                         then match parentDevice hd with
                              | Some d => close d (parentHandle hd)
                              | None => fail NullDeref
                              end
                         else ret true) ;;
              update i (set_status StatusEmpty) ;;
              ret retval) w = Ok r w').
  { destruct H as [H|H].
    - exists (parent_Close env). split; [| exact H].
      intros d p w0 b w1 [= _ <-]. split; reflexivity.
    - exists (parent_CloseBulk env). split; [| exact H].
      intros d p w0 b w1 [= _ <-]. split; reflexivity. }
  destruct Hgen as (close & Hclose & Hrun).
  apply bind_inv in Hrun as (i & wa & Hi & Hrun).
  apply index_of_inv in Hi as (-> & -> & H0 & _).
  apply bind_inv in Hrun as (hd & wb & Hs & Hrun).
  apply slot_inv in Hs as (-> & Hl).
  apply bind_inv in Hrun as (rv & wc & Hr & Hrun).
  apply bind_inv in Hrun as (u & wd & Hu & Hrun).
  injection Hrun as _ <-.
  apply update_inv in Hu as (hd' & Hl' & ->).
  assert (Hm : m_handles wc = m_handles w /\ inflight wc = inflight w).
  { destruct (bool_decide (status hd = StatusFetched)).
    - destruct (parentDevice hd); [eapply Hclose, Hr | discriminate].
    - injection Hr as _ <-. split; reflexivity. }
  destruct Hm as [Hm Hin].
  rewrite Hm in Hl'. assert (hd' = hd) as -> by congruence.
  exists hd. simpl. rewrite Hm. auto.
Qed.

(** X5: two opens that both return a handle return different handles: the
    slot of the first is no longer [Empty] when the second one looks for a
    free slot. *)
Theorem successive_opens_return_distinct_handles f1 ro1 f2 ro2 w h1 w1 h2 w2 :
  Open env f1 ro1 w = Ok h1 w1 ->
  h1 <> InvalidHandle ->
  Open env f2 ro2 w1 = Ok h2 w2 ->
  h2 <> InvalidHandle ->
  h1 <> h2.
Proof.
  intros H1 Hh1 H2 Hh2.
  apply Open_inv in H1; [| exact Hh1]. apply Open_inv in H2; [| exact Hh2].
  destruct (OpenInternal_inv _ _ _ _ _ H1 Hh1)
    as (i & e1 & hd1 & -> & _ & Hf1 & Hm1 & _ & Hst1).
  destruct (OpenInternal_inv _ _ _ _ _ H2 Hh2)
    as (j & e2 & hd2 & -> & _ & Hf2 & _).
  intros Heq. apply Nat2Z.inj in Heq. subst j.
  destruct (first_empty_Some _ _ _ Hf1) as (hd0 & Hl0 & _).
  destruct (first_empty_Some _ _ _ Hf2) as (hd & Hl & Hs & _).
  rewrite Nat.sub_0_r in Hl0, Hl. rewrite Hm1 in Hl.
  rewrite list_lookup_insert_eq in Hl by (eapply lookup_lt_Some, Hl0).
  injection Hl as <-. destruct Hst1; congruence.
Qed.


End Handles.

(* ------------------------------------------------------------------------- *)
(** ** The weight of a download *)

Lemma find_last_of_None c s :
  Str.find_last_of c s = None <-> forall n, String.get n s <> Some c.
Proof.
  induction s as [|a s IH]; simpl.
  - split; [intros _ n; destruct n; discriminate | reflexivity].
  - destruct (Str.find_last_of c s) as [p|].
    + split; [discriminate |]. intros H.
      assert (Hn : forall n, String.get n s <> Some c) by (intros n; apply (H (S n))).
      apply IH in Hn. discriminate.
    + destruct (Ascii.eqb_spec a c) as [->|Hne].
      * split; [discriminate |]. intros H. now destruct (H 0%nat).
      * split; [| reflexivity]. intros _ [|n]; simpl.
        -- congruence.
        -- now apply IH.
Qed.

Lemma find_last_of_app c a e :
  Str.find_last_of c e = None ->
  Str.find_last_of c (a +:+ String c e) = Some (String.length a).
Proof.
  intros He. by_chars a.
  - now rewrite He, Ascii.eqb_refl.
  - now rewrite IH.
Qed.

(** X7: [GetWeightForFileName] throws exactly for the names that contain no
    dot; for every other name the weight is one of 255, 128, 64, 16 and 32. *)
Theorem GetWeightForFileName_defined_iff_dotted name :
  Str.size name < npos ->
  (GetWeightForFileName name = None <-> forall n, String.get n name <> Some "."%char) /\
  (forall weight, GetWeightForFileName name = Some weight ->
                  In weight [255; 128; 64; 16; 32]).
Proof.
  intros Hlen. unfold GetWeightForFileName, Str.substr.
  destruct (Str.find_last_of "." name) as [p|] eqn:E; unfold Str.pos_of.
  - pose proof (find_last_of_lt _ _ _ E) as Hp. unfold Str.size.
    destruct (_ <? _)%Z eqn:El; [apply Z.ltb_lt in El; lia |].
    split.
    + split.
      * repeat match goal with |- context [if ?b then _ else _] => destruct b end;
          discriminate.
      * intros H. apply find_last_of_None in H. congruence.
    + intros weight.
      repeat match goal with |- context [if ?b then _ else _] => destruct b end;
        intros [= <-]; simpl; tauto.
  - destruct (_ <? _)%Z eqn:El; [| apply Z.ltb_ge in El; lia].
    split; [| discriminate]. split; [| reflexivity].
    intros _. now apply find_last_of_None.
Qed.

(** X8: the extension decides before the name does: [.ybn], [.ymap] and
    [.ytyp] weigh 255, [.ydd] and [.ydr] 128, [.ytd], [.rpf] and [.gfx] 64,
    whatever precedes the extension, a [+hi] or [_hi] marker included. *)
Theorem GetWeightForFileName_by_extension stem ext :
  (In ext [".ybn"; ".ymap"; ".ytyp"] -> GetWeightForFileName (stem +:+ ext) = Some 255) /\
  (In ext [".ydd"; ".ydr"] -> GetWeightForFileName (stem +:+ ext) = Some 128) /\
  (In ext [".ytd"; ".rpf"; ".gfx"] -> GetWeightForFileName (stem +:+ ext) = Some 64).
Proof.
  assert (H : forall e w,
             Str.find_last_of "." e = None ->
             Str.size ("." +:+ e) <= npos ->
             (let x := "." +:+ e in
              if (String.eqb x ".ybn" || String.eqb x ".ymap" || String.eqb x ".ytyp")%bool
              then Some 255
              else if (String.eqb x ".ydd" || String.eqb x ".ydr")%bool
              then Some 128
              else if (String.eqb x ".ytd" || String.eqb x ".rpf" || String.eqb x ".gfx")%bool
              then Some 64
              else None) = Some w ->
             GetWeightForFileName (stem +:+ "." +:+ e) = Some w).
  { intros e w He Hsz Hx. unfold GetWeightForFileName.
    change ("." +:+ e) with (String "." e) at 1.
    rewrite (find_last_of_app _ _ _ He). unfold Str.pos_of.
    change (Z.of_nat (String.length stem)) with (Str.size stem).
    change (String "." e) with ("." +:+ e).
    rewrite (substr_drop stem ("." +:+ e) Hsz).
    cbv zeta in Hx.
    repeat match type of Hx with
           | (if ?b then _ else _) = _ => destruct b; [exact Hx |]
           end.
    discriminate. }
  repeat split; intros Hin; simpl in Hin;
    repeat (destruct Hin as [<- | Hin]; [now apply H |]); contradiction.
Qed.

(* ------------------------------------------------------------------------- *)
(** ** Dispatching a download *)

Section Polling.

Variable env : Env.







End Polling.

(* ------------------------------------------------------------------------- *)
(** ** The completion callback *)

Section CallbackContract.

Variable env : Env.

(** Without its slot the callback does not return. *)
Lemma completion_needs_slot cl result errorData outSize w :
  m_handles w !! cl_slot cl = None ->
  exists f w', completion env cl result errorData outSize w = Fail f w'.
Proof.
  intros Hl. unfold completion, parent_GetLengthPath. cbv zeta.
  destruct result.
  - destruct (vfs_GetDevice env (cl_outFileName cl)) as [d|]; [| eexists _, _; reflexivity].
    repeat run. simpl negb; simpl orb.
    destruct (_ =? 0)%Z; rewrite ?bind_assoc.
    + rewrite update_missing by exact Hl. eauto.
    + rewrite slot_missing by exact Hl. eauto.
  - repeat run. simpl negb; simpl orb. cbv iota.
    rewrite ?bind_assoc. rewrite update_missing by exact Hl. eauto.
Qed.

(** What the callback has done to its slot when it returns. *)
Lemma completion_Ok_inv cl result errorData outSize w w' :
  completion env cl result errorData outSize w = Ok tt w' ->
  exists hd hd',
    m_handles w !! cl_slot cl = Some hd /\
    m_handles w' = <[cl_slot cl := hd']> (m_handles w) /\
    getRequest hd' = None /\
    ((status hd' = StatusFetched /\ result = true /\
      exists d, vfs_GetDevice env (cl_outFileName cl) = Some d /\
                dev_GetLengthPath env (history w) d (cl_outFileName cl) <> 0 /\
                parentDevice hd' = Some d) \/
     (status hd' = StatusError /\
      (result = false \/
       exists d, vfs_GetDevice env (cl_outFileName cl) = Some d /\
                 dev_GetLengthPath env (history w) d (cl_outFileName cl) = 0) /\
      parentDevice hd' = parentDevice hd /\ parentHandle hd' = parentHandle hd)).
Proof.
  intros H.
  destruct (m_handles w !! cl_slot cl) as [hd|] eqn:Hl;
    [| destruct (completion_needs_slot cl result errorData outSize w Hl) as (f & w0 & E);
       congruence].
  exists hd.
  destruct result.
  - destruct (vfs_GetDevice env (cl_outFileName cl)) as [d|] eqn:Hd.
    + destruct (decide (dev_GetLengthPath env (history w) d (cl_outFileName cl) = 0))
        as [Hz|Hnz].
      * destruct (completion_failure env cl true errorData outSize w hd Hl)
          as (w0 & E & Hh); [right; eauto |].
        rewrite E in H. injection H as <-.
        eexists. split; [reflexivity |]. split; [exact Hh |].
        split; [reflexivity |]. right. repeat split; eauto.
      * destruct (completion_success env cl errorData outSize w d hd Hd Hnz Hl)
          as (w0 & hd' & hist & E & Hh & Hs & Hp & _ & Hr).
        rewrite E in H. injection H as <-.
        exists hd'. split; [reflexivity |]. split; [exact Hh |].
        split; [exact Hr |]. left. repeat split; eauto.
    + unfold completion in H. cbv zeta in H. rewrite Hd in H. discriminate.
  - destruct (completion_failure env cl false errorData outSize w hd Hl)
      as (w0 & E & Hh); [left; reflexivity |].
    rewrite E in H. injection H as <-.
    eexists. split; [reflexivity |]. split; [exact Hh |].
    split; [reflexivity |]. right. repeat split; eauto.
Qed.

(** X12: whenever the completion callback returns, its slot holds no
    request handle and is [Fetched] (the transfer succeeded and the file
    has a length other than 0) or [Error] (the transfer failed or the file
    is empty; parent device and handle are then left as they were), and the
    last thing the callback has done is [notify_all] on the slot. *)
Theorem completion_settles_the_slot cl result errorData outSize w w' :
  completion env cl result errorData outSize w = Ok tt w' ->
  exists hd hd' rest,
    m_handles w !! cl_slot cl = Some hd /\
    m_handles w' = <[cl_slot cl := hd']> (m_handles w) /\
    getRequest hd' = None /\
    history w' = EvNotifyAll (cl_slot cl) :: rest /\
    ((status hd' = StatusFetched /\ result = true /\
      exists d, vfs_GetDevice env (cl_outFileName cl) = Some d /\
                dev_GetLengthPath env (history w) d (cl_outFileName cl) <> 0 /\
                parentDevice hd' = Some d) \/
     (status hd' = StatusError /\
      (result = false \/
       exists d, vfs_GetDevice env (cl_outFileName cl) = Some d /\
                 dev_GetLengthPath env (history w) d (cl_outFileName cl) = 0) /\
      parentDevice hd' = parentDevice hd /\ parentHandle hd' = parentHandle hd)).
Proof.
  intros H.
  destruct (completion_Ok_inv _ _ _ _ _ _ H) as (hd & hd' & Hl & Hh & Hr & Hcase).
  assert (Hn : exists rest, history w' = EvNotifyAll (cl_slot cl) :: rest).
  { unfold completion in H. cbv zeta in H.
    apply bind_inv in H as (o & wa & _ & H).
    apply bind_inv in H as (u & wb & _ & H).
    injection H as <-. simpl. eauto. }
  destruct Hn as [rest Hn]. exists hd, hd', rest. auto.
Qed.

End CallbackContract.

Section Registration.

Variable env : Env.

(** X14: a transfer that succeeded on a file of nonzero length is
    registered with the cache exactly once, under the staging file name and
    with the entry's base name, resource and URL as metadata, before the
    file is opened; its hash joins the record of downloaded hashes.  A
    transfer that failed or left an empty file is never registered, and the
    record stays as it was. *)
Theorem completion_registers_only_a_success cl errorData outSize w d hd :
  vfs_GetDevice env (cl_outFileName cl) = Some d ->
  m_handles w !! cl_slot cl = Some hd ->
  let out := cl_outFileName cl in
  let md : gmap string string :=
    <["from" := remoteUrl (entry hd)]>
      (<["resource" := resourceName (entry hd)]>
         (<["filename" := basename (entry hd)]> ∅)) in
  (dev_GetLengthPath env (history w) d out <> 0 ->
   exists w' hd' rest,
     completion env cl true errorData outSize w = Ok tt w' /\
     history w'
     = EvNotifyAll (cl_slot cl)
         :: (if bulkHandle hd then EvOpenBulk d out else EvOpen d out true)
         :: EvAddEntry out md :: rest /\
     count is_add_entry rest = count is_add_entry (history w) /\
     g_downloadedSet w' = {[referenceHash (entry hd)]} ∪ g_downloadedSet w /\
     m_handles w' !! cl_slot cl = Some hd' /\
     metaData hd' = md) /\
  (forall result,
     result = false \/ dev_GetLengthPath env (history w) d out = 0 ->
     exists w',
       completion env cl result errorData outSize w = Ok tt w' /\
       count is_add_entry (history w') = count is_add_entry (history w) /\
       g_downloadedSet w' = g_downloadedSet w).
Proof.
  intros Hd Hl out md.
  assert (Hi : (cl_slot cl < length (m_handles w))%nat) by (eapply lookup_lt_Some, Hl).
  destruct w as [hs b cp pp ds il c h]. simpl in Hl, Hi. flat.
  rewrite <- (list_insert_id hs _ _ Hl).
  unfold completion, AddEntryToCache, MarkFetched, parent_OpenBulk, parent_Open,
    parent_GetLengthPath.
  cbv zeta. subst out md. split.
  - intros Hlen. rewrite Hd.
    do 3 run. simpl negb. simpl orb. rewrite (proj2 (Z.eqb_neq _ _) Hlen).
    do 3 run.
    destruct (bool_decide (referenceHash (entry hd) ∈ ds)); unfold when;
      do 5 run; simpl parentDevice; cbv iota; simpl bulkHandle;
      destruct (bulkHandle hd); repeat run;
      (eexists _, _, _; split; [reflexivity |]; simpl;
       split; [reflexivity |]; split; [reflexivity |]; split; [reflexivity |];
       rewrite list_lookup_insert_eq by (rewrite ?length_insert; exact Hi);
       split; reflexivity).
  - intros result [-> | Hz].
    + run. simpl negb; simpl orb. cbv iota. repeat run.
      eexists. split; [reflexivity |]. simpl. split; reflexivity.
    + destruct result.
      * rewrite Hd. do 3 run. rewrite Hz. simpl negb; simpl orb; simpl Z.eqb. cbv iota.
        repeat run.
        eexists. split; [reflexivity |]. simpl. split; reflexivity.
      * run. simpl negb; simpl orb. cbv iota. repeat run.
        eexists. split; [reflexivity |]. simpl. split; reflexivity.
Qed.

End Registration.

(* ------------------------------------------------------------------------- *)
(** ** Closing, querying and probing *)

Lemma take_request_id r l cl rest :
  take_request r l = Some (cl, rest) -> cl_request cl = r.
Proof.
  revert cl rest. induction l as [|c l IH]; intros cl rest H; simpl in H;
    [discriminate |].
  destruct (Nat.eqb (cl_request c) r) eqn:E.
  - injection H as <- _. now apply Nat.eqb_eq.
  - destruct (take_request r l) as [[c' r']|]; [| discriminate].
    injection H as <- _. eapply IH. reflexivity.
Qed.

Section Lifecycle.

Variable env : Env.

(** X15: [Close] and [CloseBulk] cancel nothing: the requests in flight are
    the same after them, and when the transport later completes a request
    made for the closed slot, the callback writes that slot all the same:
    it is [Fetched] or [Error] again, no longer [Empty]. *)
Theorem Close_does_not_cancel_the_fetch handle w rv w1 :
  Close env handle w = Ok rv w1 \/ CloseBulk env handle w = Ok rv w1 ->
  status_at (Z.to_nat handle) w1 = Some StatusEmpty /\
  inflight w1 = inflight w /\
  forall r cl rest c w2,
    take_request r (inflight w1) = Some (cl, rest) ->
    cl_slot cl = Z.to_nat handle ->
    transport_complete env r c w1 = Ok tt w2 ->
    exists hd2,
      m_handles w2 !! Z.to_nat handle = Some hd2 /\
      (status hd2 = StatusFetched \/ status hd2 = StatusError).
Proof.
  intros H. destruct (Close_inv env _ _ _ _ H) as (hd & H0 & Hl & Hm & Hin).
  split; [| split; [exact Hin |]].
  - unfold status_at. rewrite Hm.
    rewrite list_lookup_insert_eq by (eapply lookup_lt_Some, Hl). reflexivity.
  - intros r cl rest c w2 Ht Hs Hc. unfold transport_complete in Hc.
    rewrite (bind_Ok get _ w1 w1 w1 eq_refl), Ht in Hc.
    apply bind_inv in Hc as (u & wa & _ & Hc).
    unfold deliver in Hc. apply bind_inv in Hc as (u' & wb & _ & Hc).
    destruct (completion_Ok_inv env _ _ _ _ _ _ Hc) as (hd1 & hd2 & Hl1 & Hh & _ & Hcase).
    rewrite Hs in *. exists hd2. split.
    + rewrite Hh. apply list_lookup_insert_eq. eapply lookup_lt_Some, Hl1.
    + destruct Hcase as [(E & _) | (E & _)]; auto.
Qed.

Lemma GetEntryForFileName_by_prefix name w w' :
  m_pathPrefix w' = m_pathPrefix w ->
  forall r, GetEntryForFileName env name w = Ok r w ->
            GetEntryForFileName env name w' = Ok r w'.
Proof.
  intros Hp r. unfold GetEntryForFileName, bind, get, throwing, ret, fail. rewrite Hp.
  destruct (Str.substr name _ _) as [rel|]; [| discriminate].
  destruct (Str.substr rel 0 _) as [res|]; [| discriminate].
  destruct (Str.substr rel _ npos) as [item|]; [| discriminate].
  destruct (resources env !! res); intros [= <-]; reflexivity.
Qed.

Lemma OpenInternal_pathPrefix name p w :
  m_pathPrefix (world_of (OpenInternal env name p w)) = m_pathPrefix w.
Proof.
  apply (keeps_OpenInternal env (same m_pathPrefix)); try reflexivity.
  apply same_PreOrder.
Qed.

(** X16: for a handle that [Open] has just returned and whose slot is not
    [Fetched], the length asked by handle and the length asked by path are
    the same: the size the manifest gives for the entry; neither query
    changes the world. *)
Theorem GetLength_by_handle_and_by_path_agree name readOnly w h w1 :
  Open env name readOnly w = Ok h w1 ->
  h <> InvalidHandle ->
  status_at (Z.to_nat h) w1 <> Some StatusFetched ->
  exists e,
    GetEntryForFileName env name w = Ok (Some e) w /\
    GetLength env h w1 = Ok (size e) w1 /\
    GetLengthOfFile env name w1 = Ok (size e) w1.
Proof.
  intros H Hh Hst. apply Open_inv in H; [| exact Hh].
  destruct (OpenInternal_inv env _ _ _ _ _ H Hh)
    as (i & e & hd1 & -> & He & Hf & Hm & Hent & _).
  destruct (first_empty_Some _ _ _ Hf) as (hd0 & Hl0 & _).
  rewrite Nat.sub_0_r in Hl0.
  assert (Hl1 : m_handles w1 !! Z.to_nat (Z.of_nat i) = Some hd1).
  { rewrite Nat2Z.id, Hm. apply list_lookup_insert_eq. eapply lookup_lt_Some, Hl0. }
  exists e. split; [exact He |]. split.
  - unfold GetLength.
    rewrite (bind_Ok _ _ _ _ _ (index_of_Ok _ _ _ (Nat2Z.is_nonneg i) Hl1)).
    rewrite (bind_Ok _ _ _ _ _ (slot_Ok _ _ _ Hl1)).
    rewrite bool_decide_eq_false_2; [now rewrite Hent |].
    intros Hs. apply Hst. unfold status_at. now rewrite Hl1, <- Hs.
  - pose proof (OpenInternal_pathPrefix name None w) as Hp. rewrite H in Hp. simpl in Hp.
    unfold GetLengthOfFile.
    now rewrite (bind_Ok _ _ _ _ _ (GetEntryForFileName_by_prefix name w w1 Hp _ He)).
Qed.

(** X17: the page-flags query answers [true] for every path that resolves,
    whether or not the entry has the three fields; a field the entry lacks
    reads as 0, so an entry with none of them gets version 0 and flags 0, 0. *)
Theorem ExtensionCtl_without_fields data controlSize w e :
  GetEntryForFileName env (fileName data) w = Ok (Some e) w ->
  exists v f1 f2,
    ExtensionCtl env VFS_GET_RAGE_PAGE_FLAGS data controlSize w
    = Ok (true, mkGetRagePageFlagsExtension (fileName data) v (mkResourceFlags f1 f2)) w /\
    (extData e !! "rscVersion" = None -> v = 0) /\
    (extData e !! "rscPagesVirtual" = None -> f1 = 0) /\
    (extData e !! "rscPagesPhysical" = None -> f2 = 0).
Proof.
  intros He. unfold ExtensionCtl.
  rewrite bool_decide_eq_true_2 by reflexivity. rewrite (bind_Ok _ _ _ _ _ He).
  eexists _, _, _. split; [reflexivity |].
  unfold map_at. repeat split; intros ->; reflexivity.
Qed.


(** X19: in every world the device can be in, [Seek], [GetLength], [Close]
    and [CloseBulk] return for every handle that lies within the table:
    a [Fetched] slot always has a parent device to call. *)
Theorem handle_calls_return_in_reachable_worlds w handle offset seekType :
  reachable env w ->
  0 <= handle < Z.of_nat (length (m_handles w)) ->
  (exists r w', Seek env handle offset seekType w = Ok r w') /\
  (exists r w', GetLength env handle w = Ok r w') /\
  (exists r w', Close env handle w = Ok r w') /\
  (exists r w', CloseBulk env handle w = Ok r w').
Proof.
  intros Hr Hh.
  assert (Hsome : is_Some (m_handles w !! Z.to_nat handle))
    by (apply lookup_lt_is_Some_2; lia).
  destruct Hsome as [hd Hl].
  pose proof (reachable_parents_present env w Hr _ _ Hl) as Hp.
  assert (H0 : 0 <= handle) by lia.
  unfold Seek, GetLength, Close, CloseBulk.
  rewrite !(bind_Ok _ _ _ _ _ (index_of_Ok _ _ _ H0 Hl)).
  rewrite !(bind_Ok _ _ _ _ _ (slot_Ok _ _ _ Hl)).
  destruct (decide (status hd = StatusFetched)) as [Hs|Hs].
  - rewrite (bool_decide_eq_true_2 _ Hs).
    rewrite bool_decide_eq_false_2 by (intros Hn; now apply Hn).
    destruct (parentDevice hd) as [d|] eqn:Hd; [| now destruct (Hp Hs)].
    repeat split.
    + eexists _, _. reflexivity.
    + eexists _, _. reflexivity.
    + unfold parent_Close. rewrite !bind_assoc. repeat (erewrite bind_Ok by reflexivity).
      match goal with |- context [bind _ _ ?w2] =>
        assert (Hl2 : m_handles w2 !! Z.to_nat handle = Some hd) by exact Hl;
        rewrite (bind_Ok _ _ _ _ _ (update_Ok _ _ _ _ Hl2))
      end.
      eexists _, _. reflexivity.
    + unfold parent_CloseBulk. rewrite !bind_assoc. repeat (erewrite bind_Ok by reflexivity).
      match goal with |- context [bind _ _ ?w2] =>
        assert (Hl2 : m_handles w2 !! Z.to_nat handle = Some hd) by exact Hl;
        rewrite (bind_Ok _ _ _ _ _ (update_Ok _ _ _ _ Hl2))
      end.
      eexists _, _. reflexivity.
  - rewrite (bool_decide_eq_false_2 _ Hs).
    rewrite bool_decide_eq_true_2 by exact Hs.
    repeat split.
    + eexists _, _. reflexivity.
    + eexists _, _. reflexivity.
    + rewrite bind_ret, (bind_Ok _ _ _ _ _ (update_Ok _ _ _ _ Hl)).
      eexists _, _. reflexivity.
    + rewrite bind_ret, (bind_Ok _ _ _ _ _ (update_Ok _ _ _ _ Hl)).
      eexists _, _. reflexivity.
Qed.

End Lifecycle.

(* ------------------------------------------------------------------------- *)
(** ** Opening without a usable cached copy *)

Section Fallback.

Variable env : Env.

(** X20: when the cache has no copy of the entry, or the device of the
    cached copy is missing, or that device fails to open it, [Open] and
    [OpenBulk] still return the handle: the slot is [NotFetched], nothing is
    requested from the transport, and what the slot's previous use left as
    its request and meta data is still in it. *)
Theorem OpenInternal_falls_back_to_not_fetched fileName bulkPtr w e i hd0 :
  GetEntryForFileName env fileName w = Ok (Some e) w ->
  first_empty 0 (m_handles w) = Some i ->
  m_handles w !! i = Some hd0 ->
  cache_GetEntryFor env (history w) (referenceHash e) = None \/
  (exists ce,
      cache_GetEntryFor env (history w) (referenceHash e) = Some ce /\
      (vfs_GetDevice env (GetLocalPath ce) = None \/
       exists d, vfs_GetDevice env (GetLocalPath ce) = Some d /\
                 (if bool_decide (bulkPtr <> None)
                  then fst (dev_OpenBulk env (history w) d (GetLocalPath ce))
                  else dev_Open env (history w) d (GetLocalPath ce) true)
                 = InvalidHandle)) ->
  exists w1 hd1,
    OpenInternal env fileName bulkPtr w = Ok (Z.of_nat i) w1 /\
    m_handles w1 = <[i := hd1]> (m_handles w) /\
    status hd1 = StatusNotFetched /\
    entry hd1 = e /\
    getRequest hd1 = getRequest hd0 /\
    metaData hd1 = metaData hd0 /\
    inflight w1 = inflight w /\
    count is_fetch (history w1) = count is_fetch (history w).
Proof.
  intros He Hf Hl Hcase.
  unfold OpenInternal.
  rewrite (bind_Ok _ _ _ _ _ He).
  rewrite (bind_Ok _ _ _ _ _ (AllocateHandle_Ok _ _ _ Hf Hl)).
  assert (Hi : (i < length (m_handles w))%nat) by (eapply lookup_lt_Some, Hl).
  destruct w as [hs b cp pp ds il c h]. simpl in Hi, Hcase. clear He Hf Hl.
  flat. unfold parent_Open, parent_OpenBulk, MarkFetched.
  do 4 run.
  assert (Htail : forall hd hist,
             status hd = StatusNotFetched ->
             exists w1,
               ((hd <- slot i ;;
                 when (bool_decide (status hd <> StatusFetched))
                   (w <- get ;;
                    when (bool_decide (referenceHash (entry hd) ∈ g_downloadedSet w))
                      (emit (EvTrace (TraceNotInCache (basename (entry hd)))))) ;;
                 ret (Z.of_nat i))
                  (mkWorld (<[i := hd]> hs) b cp pp ds il c hist)) = Ok (Z.of_nat i) w1 /\
               m_handles w1 = <[i := hd]> hs /\
               inflight w1 = il /\
               count is_fetch (history w1) = count is_fetch hist).
  { intros hd hist Hst. run. rewrite Hst, status_test_unfetched. unfold when.
    run. destruct (bool_decide (referenceHash (entry hd) ∈ ds)); repeat run;
      eexists; repeat split; reflexivity. }
  destruct Hcase as [-> | (ce & -> & [Hd | (d & Hd & Ho)])].
  - run. edestruct Htail as (w1 & -> & Hh & Hin & Hc);
      [| eexists _, _; split; [reflexivity |]; split; [exact Hh |]];
      simpl; auto 10.
  - do 2 run. simpl parentDevice. rewrite Hd. run.
    edestruct Htail as (w1 & -> & Hh & Hin & Hc);
      [| eexists _, _; split; [reflexivity |]; split; [exact Hh |]];
      simpl; auto 10.
  - do 2 run. simpl parentDevice. rewrite Hd.
    destruct (bool_decide (bulkPtr <> None)) eqn:Hb.
    + do 6 run. simpl parentHandle.
      rewrite (bool_decide_eq_false_2 _ (fun H => H Ho)). unfold when. run.
      edestruct Htail as (w1 & -> & Hh & Hin & Hc);
        [| eexists _, _; split; [reflexivity |]; split; [exact Hh |]];
        simpl; auto 10.
    + do 5 run. simpl parentHandle.
      rewrite (bool_decide_eq_false_2 _ (fun H => H Ho)). unfold when. run.
      edestruct Htail as (w1 & -> & Hh & Hin & Hc);
        [| eexists _, _; split; [reflexivity |]; split; [exact Hh |]];
        simpl; auto 10.
Qed.

End Fallback.

(* ------------------------------------------------------------------------- *)
(** ** The properties above on concrete runs *)

Lemma GetEntryForFileName_splits_at_first_slash_witness :
  GetEntryForFileName Sample.env_miss "resources:/cars/model.ytd" Scenario.mounted
  = Ok (Some Sample.model_ytd) Scenario.mounted.
Proof.
  refine (eq_trans (GetEntryForFileName_splits_at_first_slash Sample.env_miss
                      Scenario.mounted "resources:/" "cars" "model.ytd" _ _ _) _);
    reflexivity.
Defined.

Lemma GetEntryForFileName_without_slash_witness :
  GetEntryForFileName Sample.env_miss "resources:/cars" Scenario.mounted
  = Ok None Scenario.mounted.
Proof.
  refine (eq_trans (GetEntryForFileName_without_slash Sample.env_miss
                      Scenario.mounted "resources:/" "cars" _ _ _) _);
    reflexivity.
Defined.

Lemma short_file_name_throws_witness :
  Open Sample.env_miss "res" true Scenario.mounted = Fail OutOfRange Scenario.mounted /\
  GetLengthOfFile Sample.env_miss "res" Scenario.mounted
  = Fail OutOfRange Scenario.mounted.
Proof.
  destruct (short_file_name_throws Sample.env_miss Scenario.mounted "res" 0%nat
              (mkGetRagePageFlagsExtension "res" 0 (mkResourceFlags 0 0)) 0)
    as (HO & _ & HL & _).
  - simpl. lia.
  - split; [exact HO | exact HL].
Defined.

Lemma successive_opens_return_distinct_handles_witness :
  Open Sample.env_miss Sample.path true Scenario.fresh = Ok 0 Scenario.opened_once /\
  Open Sample.env_miss Sample.path true Scenario.opened_once
  = Ok 1 Scenario.opened_twice /\
  (0 : Z) <> 1.
Proof.
  assert (H1 : Open Sample.env_miss Sample.path true Scenario.fresh
               = Ok 0 Scenario.opened_once) by (vm_compute; reflexivity).
  assert (H2 : Open Sample.env_miss Sample.path true Scenario.opened_once
               = Ok 1 Scenario.opened_twice) by (vm_compute; reflexivity).
  split; [exact H1 |]. split; [exact H2 |].
  apply (successive_opens_return_distinct_handles Sample.env_miss _ _ _ _ _ _ _ _ _
           H1 ltac:(vm_compute; discriminate) H2 ltac:(vm_compute; discriminate)).
Defined.


Lemma GetWeightForFileName_defined_iff_dotted_witness :
  GetWeightForFileName "README" = None <->
  forall n, String.get n "README" <> Some "."%char.
Proof.
  apply (GetWeightForFileName_defined_iff_dotted "README"). reflexivity.
Defined.




Lemma completion_settles_the_slot_witness :
  exists hd',
    m_handles
      (world_of (completion Sample.env_miss Scenario.pending true "" 4096
                   (Sample.table Sample.fetching_slot)))
    = <[0%nat := hd']> (m_handles (Sample.table Sample.fetching_slot)) /\
    getRequest hd' = None.
Proof.
  destruct (completion_settles_the_slot Sample.env_miss Scenario.pending true "" 4096
              (Sample.table Sample.fetching_slot)
              (world_of (completion Sample.env_miss Scenario.pending true "" 4096
                           (Sample.table Sample.fetching_slot))))
    as (hd & hd' & rest & _ & Hm & Hr & _).
  - vm_compute. reflexivity.
  - exists hd'. split; [exact Hm | exact Hr].
Defined.

Lemma completion_registers_only_a_success_witness :
  exists w',
    completion Sample.env_miss Scenario.pending true "" 4096
      (Sample.table Sample.fetching_slot) = Ok tt w' /\
    g_downloadedSet w' = {["c0ffee"]} ∪ ∅.
Proof.
  destruct (completion_registers_only_a_success Sample.env_miss Scenario.pending "" 4096
              (Sample.table Sample.fetching_slot) Sample.local_device
              Sample.fetching_slot eq_refl eq_refl)
    as [Hs _].
  destruct Hs as (w' & hd' & rest & HC & _ & _ & Hset & _).
  - vm_compute. discriminate.
  - exists w'. split; [exact HC | exact Hset].
Defined.

Lemma Close_does_not_cancel_the_fetch_witness :
  inflight Scenario.closed_early = inflight Scenario.downloading /\
  exists hd2,
    m_handles Scenario.completed_late !! 0%nat = Some hd2 /\
    (status hd2 = StatusFetched \/ status hd2 = StatusError).
Proof.
  destruct (Close_does_not_cancel_the_fetch Sample.env_miss 0 Scenario.downloading
              true Scenario.closed_early)
    as (_ & Hin & Hlate).
  - left. vm_compute. reflexivity.
  - split; [exact Hin |].
    apply (Hlate 1%nat (mkClosure 1%nat 0%nat Scenario.staged) [] Sample.transfer_ok).
    + vm_compute. reflexivity.
    + reflexivity.
    + vm_compute. reflexivity.
Defined.

Lemma GetLength_by_handle_and_by_path_agree_witness :
  exists e,
    GetLength Sample.env_miss 0 Scenario.opened_once
    = Ok (size e) Scenario.opened_once /\
    GetLengthOfFile Sample.env_miss Sample.path Scenario.opened_once
    = Ok (size e) Scenario.opened_once.
Proof.
  destruct (GetLength_by_handle_and_by_path_agree Sample.env_miss Sample.path true
              Scenario.fresh 0 Scenario.opened_once)
    as (e & _ & H1 & H2).
  - vm_compute. reflexivity.
  - vm_compute. discriminate.
  - vm_compute. discriminate.
  - exists e. split; [exact H1 | exact H2].
Defined.

Lemma ExtensionCtl_without_fields_witness :
  ExtensionCtl Scenario.env_plain VFS_GET_RAGE_PAGE_FLAGS
    (mkGetRagePageFlagsExtension "cars/README" 9 (mkResourceFlags 9 9)) 0 Scenario.fresh
  = Ok (true, mkGetRagePageFlagsExtension "cars/README" 0 (mkResourceFlags 0 0))
       Scenario.fresh.
Proof.
  destruct (ExtensionCtl_without_fields Scenario.env_plain
              (mkGetRagePageFlagsExtension "cars/README" 9 (mkResourceFlags 9 9)) 0
              Scenario.fresh Scenario.readme)
    as (v & f1 & f2 & H & Hv & H1 & H2).
  - vm_compute. reflexivity.
  - rewrite H, Hv, H1, H2; reflexivity.
Defined.


Lemma handle_calls_return_in_reachable_worlds_witness :
  exists r w', Close Sample.env_miss 0 Scenario.opened_once = Ok r w'.
Proof.
  destruct (handle_calls_return_in_reachable_worlds Sample.env_miss
              Scenario.opened_once 0 0 0)
    as (_ & _ & H & _).
  - apply reach_Open, reach_new.
  - vm_compute. split; [discriminate | reflexivity].
  - exact H.
Defined.

Lemma OpenInternal_falls_back_to_not_fetched_witness :
  exists w1 hd1,
    OpenInternal Scenario.env_stale Sample.path None Scenario.fresh = Ok 0 w1 /\
    m_handles w1 = <[0%nat := hd1]> (m_handles Scenario.fresh) /\
    status hd1 = StatusNotFetched.
Proof.
  destruct (OpenInternal_falls_back_to_not_fetched Scenario.env_stale Sample.path None
              Scenario.fresh Sample.model_ytd 0 empty_slot)
    as (w1 & hd1 & HO & Hm & Hst & _).
  - vm_compute. reflexivity.
  - reflexivity.
  - reflexivity.
  - right. exists (mkCacheEntry "cache/ytd_c0ffee" ∅). split; [reflexivity |].
    right. exists Sample.local_device. split; reflexivity.
  - exists w1, hd1. split; [exact HO |]. split; [exact Hm | exact Hst].
Defined.
